(** * gotrack: the Pomodoro timer engine, the session log and the analytics

    A shallow embedding of
      - internal/tracker/pomodoro  (State, Pomodoro and its operations),
      - internal/config            (PomodoroConfig),
      - internal/models            (Session),
      - internal/storage           (FileStorage, as the list of stored records),
      - internal/tracker           (SessionManager.Start / Finish),
      - internal/tracker/analytics (CalculateTotalDuration and the
                                    clock-dependent period totals),
    followed by the properties established about them.

    Conventions.
      - A Go [int] and a [time.Duration] are 64-bit signed integers: they are
        values of [Z] and every arithmetic result goes through [wrap].
      - A [time.Time] is the number of nanoseconds since the zero instant
        (January 1, year 1, 00:00 UTC), so [IsZero t] is [t = 0]; every
        instant is read in UTC.
      - [time.Now()] is an explicit argument [now] of the operation reading
        the clock.
      - A callback slot is a boolean (a non-nil function is installed); the
        calls made to the callbacks are the list of [Event]s an operation
        returns, in call order.  The callbacks covered are those that do
        not call Start, Pause or Stop themselves.
      - A run-time panic (integer division by zero) is [None]. *)

From Stdlib Require Import ZArith List String Bool Lia.
Import ListNotations.
Open Scope Z_scope.

(* ------------------------------------------------------------------ *)
(** ** 64-bit machine integers *)

Module goint.

Definition min_int : Z := - 2 ^ 63.
Definition max_int : Z := 2 ^ 63 - 1.

(** Two's-complement wrap-around of an exact result. *)
Definition wrap (z : Z) : Z := (z + 2 ^ 63) mod 2 ^ 64 - 2 ^ 63.

Definition in_range (z : Z) : Prop := min_int <= z <= max_int.

(** Go's [%]: the remainder of the truncated division; a zero divisor
    panics. *)
Definition rem (a b : Z) : option Z :=
  if b =? 0 then None else Some (Z.rem a b).

End goint.

(* ------------------------------------------------------------------ *)
(** ** package time *)

Module time.

Definition Duration : Type := Z.
Definition Time : Type := Z.

Definition Nanosecond : Duration := 1.
Definition Millisecond : Duration := 1000000.
Definition Second : Duration := 1000 * Millisecond.
Definition Minute : Duration := 60 * Second.
Definition Hour : Duration := 60 * Minute.

(** [time.Time{}] *)
Definition zero : Time := 0.

Definition IsZero (t : Time) : bool := t =? 0.

Definition After (t u : Time) : bool := u <? t.

(** [t.Sub(u)]: the difference, saturated to the range of a Duration. *)
Definition Sub (t u : Time) : Duration :=
  let d := t - u in
  if d <? goint.min_int then goint.min_int
  else if goint.max_int <? d then goint.max_int
  else d.

(** Length of a civil day in UTC. *)
Definition day_ns : Z := 24 * Hour.



Definition Before (t u : Time) : bool := t <? u.

Definition Equal (t u : Time) : bool := t =? u.

(** [t.Add(d)] *)
Definition Add (t : Time) (d : Duration) : Time := t + d.

(** [t.Truncate(d)]: [t] rounded down to a multiple of [d] since the zero
    instant; [t] itself when [d <= 0]. *)
Definition Truncate (t : Time) (d : Duration) : Time :=
  if d <=? 0 then t else t - t mod d.

End time.

(* ------------------------------------------------------------------ *)
(** ** package config *)

Module config.

Record PomodoroConfig : Type := {
  WorkDuration : time.Duration;
  BreakDuration : time.Duration;
  LongBreak : time.Duration;
  LongBreakInterval : Z;
  AutoStartBreak : bool
}.

(** [Default().Pomodoro] *)
Definition Default : PomodoroConfig :=
  {| WorkDuration := 25 * time.Minute;
     BreakDuration := 5 * time.Minute;
     LongBreak := 15 * time.Minute;
     LongBreakInterval := 4;
     AutoStartBreak := true |}.

End config.

(* ------------------------------------------------------------------ *)
(** ** package pomodoro *)

Module pomodoro.

Import config.

Inductive State : Type :=
| StateIdle
| StateWorking
| StateShortBreak
| StateLongBreak
| StatePaused.

Definition State_eqb (a b : State) : bool :=
  match a, b with
  | StateIdle, StateIdle
  | StateWorking, StateWorking
  | StateShortBreak, StateShortBreak
  | StateLongBreak, StateLongBreak
  | StatePaused, StatePaused => true
  | _, _ => false
  end.

(** The test the source repeats in Start, Pause and the tick loop:
    [state == StateWorking || state == StateShortBreak ||
     state == StateLongBreak]. *)
Definition running (s : State) : bool :=
  State_eqb s StateWorking || State_eqb s StateShortBreak
  || State_eqb s StateLongBreak.

(** Calls received by the two callbacks. *)
Inductive Event : Type :=
| StateChange (s : State)
| Tick (remaining : time.Duration).

(** The [ticker] field: [None] is nil, [Some b] a ticker that is running
    ([b = true]) or has been stopped.  The [tickerQuit] field: [true] is an
    open channel, [false] is nil (the source sets the field to nil whenever
    it closes the channel). *)
Record Pomodoro : Type := {
  config : PomodoroConfig;
  state : State;
  remaining : time.Duration;
  cycles : Z;
  workSessions : Z;
  ticker : option bool;
  tickerQuit : bool;
  lastTick : time.Time;
  onStateChange : bool;
  onTick : bool
}.

Definition ErrAlreadyRunning : string := "pomodoro is already running".

Definition New (cfg : PomodoroConfig) : Pomodoro :=
  {| config := cfg;
     state := StateIdle;
     remaining := WorkDuration cfg;
     cycles := 0;
     workSessions := 0;
     ticker := None;
     tickerQuit := false;
     lastTick := time.zero;
     onStateChange := true;
     onTick := true |}.

(** [if p.onStateChange != nil { p.onStateChange(newState) }] *)
Definition notifyState (p : Pomodoro) (s : State) : list Event :=
  if onStateChange p then [StateChange s] else [].

(** [if p.onTick != nil { p.onTick(remaining) }] *)
Definition notifyTick (p : Pomodoro) (r : time.Duration) : list Event :=
  if onTick p then [Tick r] else [].

(** The previous ticker is stopped and the previous quit channel closed
    (its goroutine leaves); a fresh running ticker and a fresh open channel
    take their place, with a goroutine of their own. *)
Definition startTicker (now : time.Time) (p : Pomodoro) : Pomodoro :=
  {| config := config p;
     state := state p;
     remaining := remaining p;
     cycles := cycles p;
     workSessions := workSessions p;
     ticker := Some true;
     tickerQuit := true;
     lastTick := now;
     onStateChange := onStateChange p;
     onTick := onTick p |}.

(** Start returns the engine after the call, the callbacks it made and the
    error ([None] is nil). *)
Definition Start (now : time.Time) (p : Pomodoro)
  : Pomodoro * list Event * option string :=
  if running (state p) then
    (p, [], Some "cannot start: timer is already running"%string)
  else
    let p1 :=
      if State_eqb (state p) StatePaused then
        {| config := config p;
           state := StateWorking;
           remaining := remaining p;
           cycles := cycles p;
           workSessions := workSessions p;
           ticker := ticker p;
           tickerQuit := tickerQuit p;
           lastTick := lastTick p;
           onStateChange := onStateChange p;
           onTick := onTick p |}
      else
        {| config := config p;
           state := StateWorking;
           remaining := WorkDuration (config p);
           cycles := cycles p;
           workSessions := workSessions p;
           ticker := ticker p;
           tickerQuit := tickerQuit p;
           lastTick := lastTick p;
           onStateChange := onStateChange p;
           onTick := onTick p |} in
    let newState := state p1 in
    (startTicker now p1, notifyState p1 newState, None).

Definition Pause (p : Pomodoro) : Pomodoro * list Event :=
  if negb (running (state p)) then (p, [])
  else
    let p1 :=
      {| config := config p;
         state := StatePaused;
         remaining := remaining p;
         cycles := cycles p;
         workSessions := workSessions p;
         ticker := match ticker p with
                   | Some _ => Some false
                   | None => None
                   end;
         tickerQuit := tickerQuit p;
         lastTick := lastTick p;
         onStateChange := onStateChange p;
         onTick := onTick p |} in
    (p1, notifyState p1 (state p1)).

Definition Stop (p : Pomodoro) : Pomodoro * list Event :=
  let p1 :=
    {| config := config p;
       state := StateIdle;
       remaining := remaining p;
       cycles := 0;
       workSessions := 0;
       ticker := None;
       tickerQuit := false;
       lastTick := time.zero;
       onStateChange := onStateChange p;
       onTick := onTick p |} in
  (p1, notifyState p1 (state p1)).

(** Accessors.  [CurrentState] is the method [State()]. *)
Definition CurrentState (p : Pomodoro) : State := state p.
Definition Cycles (p : Pomodoro) : Z := cycles p.
Definition Remaining (p : Pomodoro) : time.Duration := remaining p.

(** The [switch p.state] of completeSession, after the two counters have
    been incremented in the Working case: the new state and remaining time.
    [None] is the panic of [p.workSessions % 0]. *)
Definition nextPhase (cfg : PomodoroConfig) (s : State) (ws : Z)
           (r : time.Duration) : option (State * time.Duration) :=
  match s with
  | StateWorking =>
      if 0 <? ws then
        match goint.rem ws (LongBreakInterval cfg) with
        | None => None
        | Some m =>
            if m =? 0 then Some (StateLongBreak, LongBreak cfg)
            else Some (StateShortBreak, BreakDuration cfg)
        end
      else Some (StateShortBreak, BreakDuration cfg)
  | StateShortBreak | StateLongBreak => Some (StateWorking, WorkDuration cfg)
  | StateIdle | StatePaused => Some (s, r)
  end.

Definition completeSession (now : time.Time) (p : Pomodoro)
  : option (Pomodoro * list Event) :=
  let ws := if State_eqb (state p) StateWorking
            then goint.wrap (workSessions p + 1) else workSessions p in
  let cy := if State_eqb (state p) StateWorking
            then goint.wrap (cycles p + 1) else cycles p in
  match nextPhase (config p) (state p) ws (remaining p) with
  | None => None
  | Some (s', r') =>
      let p1 :=
        {| config := config p;
           state := s';
           remaining := r';
           cycles := cy;
           workSessions := ws;
           ticker := None;
           tickerQuit := false;
           lastTick := lastTick p;
           onStateChange := onStateChange p;
           onTick := onTick p |} in
      let newState := state p1 in
      let autoStart := AutoStartBreak (config p1)
                       || State_eqb (state p1) StateWorking in
      Some (if autoStart then startTicker now p1 else p1,
            notifyState p1 newState)
  end.

(** [100 * time.Millisecond] *)
Definition tickUnit : time.Duration := 100 * time.Millisecond.

(** [p.remaining = r] *)
Definition withRemaining (p : Pomodoro) (r : time.Duration) : Pomodoro :=
  {| config := config p;
     state := state p;
     remaining := r;
     cycles := cycles p;
     workSessions := workSessions p;
     ticker := ticker p;
     tickerQuit := tickerQuit p;
     lastTick := lastTick p;
     onStateChange := onStateChange p;
     onTick := onTick p |}.

(** First critical section of the loop body run for a value received from
    the ticker: [None] when the state is not a running one (the tick is
    skipped), otherwise the engine with the decremented remaining time,
    the local copy [remaining] and [shouldContinue]. *)
Definition tickLocked (p : Pomodoro)
  : option (Pomodoro * time.Duration * bool) :=
  if negb (running (state p)) then None
  else
    let p1 := withRemaining p (goint.wrap (remaining p - tickUnit)) in
    let r := remaining p1 in
    let shouldContinue :=
      if r <=? 0 then
        State_eqb (state p1) StateWorking
        || (State_eqb (state p1) StateShortBreak && AutoStartBreak (config p1))
        || (State_eqb (state p1) StateLongBreak && AutoStartBreak (config p1))
      else false in
    Some (p1, r, shouldContinue).

(** One iteration of the goroutine's loop on the ticker case: the
    callbacks made and, unless completeSession panicked ([None]), the engine
    afterwards with whether this goroutine loops again ([false]: it
    returns).  A goroutine that loops again after a completion finds its
    own ticker stopped and its quit channel closed by completeSession; the
    ticks that follow come from the ticker startTicker has armed, if any. *)
Definition tick (now : time.Time) (p : Pomodoro)
  : list Event * option (Pomodoro * bool) :=
  match tickLocked p with
  | None => ([], Some (p, true))
  | Some (p1, r, shouldContinue) =>
      let ev := notifyTick p1 r in
      if r <=? 0 then
        match completeSession now p1 with
        | None => (ev, None)
        | Some (p2, ev2) => (ev ++ ev2, Some (p2, shouldContinue))
        end
      else (ev, Some (p1, true))
  end.

(** Ticking is armed when the engine holds a running ticker. *)
Definition armed (p : Pomodoro) : bool :=
  match ticker p with
  | Some true => true
  | _ => false
  end.

(** What the runtime's clock can do to the engine: a value is delivered
    only by a running ticker. *)
Definition fire (now : time.Time) (p : Pomodoro) : option Pomodoro :=
  if armed p then
    match snd (tick now p) with
    | Some (p', _) => Some p'
    | None => None
    end
  else Some p.

Fixpoint fires (nows : list time.Time) (p : Pomodoro) : option Pomodoro :=
  match nows with
  | [] => Some p
  | now :: rest =>
      match fire now p with
      | Some p' => fires rest p'
      | None => None
      end
  end.

(** Control calls and ticks, in the order the engine's mutex serialises
    them.  [OpTick] runs the loop body whatever the ticker's condition, so
    that a value left in the channel of a stopped ticker is covered too.
    [OpTick] is a whole loop body: the schedules in which a control call is
    served between its two critical sections are those of [irun] below. *)
Inductive Op : Type :=
| OpStart (now : time.Time)
| OpPause
| OpStop
| OpTick (now : time.Time).

Definition step (o : Op) (p : Pomodoro) : option Pomodoro :=
  match o with
  | OpStart now => Some (fst (fst (Start now p)))
  | OpPause => Some (fst (Pause p))
  | OpStop => Some (fst (Stop p))
  | OpTick now =>
      match snd (tick now p) with
      | Some (p', _) => Some p'
      | None => None
      end
  end.

Fixpoint run (ops : list Op) (p : Pomodoro) : option Pomodoro :=
  match ops with
  | [] => Some p
  | o :: rest =>
      match step o p with
      | Some p' => run rest p'
      | None => None
      end
  end.

(** Duration the configuration gives to a phase. *)
Definition phaseDuration (cfg : PomodoroConfig) (s : State)
  : option time.Duration :=
  match s with
  | StateWorking => Some (WorkDuration cfg)
  | StateShortBreak => Some (BreakDuration cfg)
  | StateLongBreak => Some (LongBreak cfg)
  | StateIdle | StatePaused => None
  end.

(** The spec's wording of the long-break cadence: [n] is a nonzero multiple
    of [k]. *)
Definition nonzeroMultiple (n k : Z) : Prop := n <> 0 /\ (k | n).

(** A Duration field holds a positive value of its 64-bit type. *)
Definition positiveDuration (d : time.Duration) : Prop :=
  0 < d <= goint.max_int.

Definition positiveDurations (cfg : PomodoroConfig) : Prop :=
  positiveDuration (WorkDuration cfg)
  /\ positiveDuration (BreakDuration cfg)
  /\ positiveDuration (LongBreak cfg).

(** The engine keeps the configuration [cfg] it was built with and a
    positive remaining time. *)
Definition timed (cfg : PomodoroConfig) (p : Pomodoro) : Prop :=
  config p = cfg /\ 0 < remaining p <= goint.max_int.

(** The statement "Start after Pause resumes the phase that was suspended,
    with the remaining time it had", for every running engine. *)
Definition resumesSuspendedPhase : Prop :=
  forall (now : time.Time) (p : Pomodoro),
    running (state p) = true ->
    let '(resumed, _, err) := Start now (fst (Pause p)) in
    err = None /\ state resumed = state p /\ Remaining resumed = Remaining p.

(** A configuration with a work phase of one tick. *)
Definition oneTickWork : PomodoroConfig :=
  {| WorkDuration := tickUnit;
     BreakDuration := 5 * time.Minute;
     LongBreak := 15 * time.Minute;
     LongBreakInterval := 4;
     AutoStartBreak := true |}.

(** The method [String()] of State (the [default] branch answers for
    integers that are none of the five constants). *)
Definition State_String (s : State) : string :=
  match s with
  | StateIdle => "idle"
  | StateWorking => "working"
  | StateShortBreak => "short break"
  | StateLongBreak => "long break"
  | StatePaused => "paused"
  end.

(** The callbacks an operation of a run makes. *)
Definition stepEvents (o : Op) (p : Pomodoro) : list Event :=
  match o with
  | OpStart now => snd (fst (Start now p))
  | OpPause => snd (Pause p)
  | OpStop => snd (Stop p)
  | OpTick now => fst (tick now p)
  end.

(** Number of ticks in a sequence of operations. *)
Fixpoint tickCount (ops : list Op) : nat :=
  match ops with
  | [] => 0%nat
  | OpTick _ :: rest => S (tickCount rest)
  | _ :: rest => tickCount rest
  end.


(** The break the engine is in matches the work-session count. *)
Definition breakMatchesCount (p : Pomodoro) : Prop :=
  (state p = StateLongBreak ->
   nonzeroMultiple (workSessions p) (LongBreakInterval (config p)))
  /\ (state p = StateShortBreak ->
      0 < workSessions p
      /\ ~ nonzeroMultiple (workSessions p) (LongBreakInterval (config p))).

(** The engine as its goroutines run it.  The loop body of a ticker
    goroutine holds the mutex twice: once for the decrement ([tickLocked])
    and, when the remaining time has reached zero, once more inside
    completeSession; in between the mutex is free, the tick callback runs
    and any control call may be served.  [ITickLocked] is the first critical
    section of some ticker goroutine, [IComplete] the call of
    completeSession by a goroutine that owes one; the second component of
    the state counts the completions owed. *)
Inductive IOp : Type :=
| IStart (now : time.Time)
| IPause
| IStop
| ITickLocked
| IComplete (now : time.Time).

Definition istep (o : IOp) (w : Pomodoro * nat) : option (Pomodoro * nat) :=
  let '(p, owed) := w in
  match o with
  | IStart now => Some (fst (fst (Start now p)), owed)
  | IPause => Some (fst (Pause p), owed)
  | IStop => Some (fst (Stop p), owed)
  | ITickLocked =>
      match tickLocked p with
      | None => Some (p, owed)
      | Some (p1, r, _) => Some (p1, if r <=? 0 then S owed else owed)
      end
  | IComplete now =>
      match owed with
      | O => Some (p, O)
      | S owed' =>
          match completeSession now p with
          | Some (p', _) => Some (p', owed')
          | None => None
          end
      end
  end.

Fixpoint irun (ops : list IOp) (w : Pomodoro * nat)
  : option (Pomodoro * nat) :=
  match ops with
  | [] => Some w
  | o :: rest =>
      match istep o w with
      | Some w' => irun rest w'
      | None => None
      end
  end.

(** The schedule in which nothing is served between the two critical
    sections of a tick: the one [run] follows. *)
Definition whole (o : Op) : list IOp :=
  match o with
  | OpStart now => [IStart now]
  | OpPause => [IPause]
  | OpStop => [IStop]
  | OpTick now => [ITickLocked; IComplete now]
  end.

Definition wholeTicks (ops : list Op) : list IOp := flat_map whole ops.

(** The statement "once no completion is owed, Remaining is not negative",
    for every schedule of a fresh engine with positive durations. *)
Definition remainingNeverNegative : Prop :=
  forall (cfg : PomodoroConfig) (ops : list IOp) (p : Pomodoro),
    positiveDurations cfg ->
    irun ops (New cfg, 0%nat) = Some (p, 0%nat) ->
    0 <= Remaining p.

(** A configuration with a work phase shorter than one tick. *)
Definition halfTickWork : PomodoroConfig :=
  {| WorkDuration := 50 * time.Millisecond;
     BreakDuration := 5 * time.Minute;
     LongBreak := 15 * time.Minute;
     LongBreakInterval := 4;
     AutoStartBreak := true |}.


End pomodoro.

(* ------------------------------------------------------------------ *)
(** ** package models *)

Module models.

Definition ErrNoSessions : string := "no sessions found".

Record Session : Type := {
  Task : string;
  StartTime : time.Time;
  EndTime : time.Time
}.

Definition IsActive (s : Session) : bool :=
  negb (time.IsZero (StartTime s)) && time.IsZero (EndTime s).

End models.

(* ------------------------------------------------------------------ *)
(** ** package storage

    The JSONL file is the list of the records it holds, oldest first; every
    record written by Save is read back unchanged by GetAll.  The calls to
    the file system are taken to succeed. *)

Module storage.

Import models.

Definition FileStorage : Type := list Session.

(** Save appends one line to the file.  The session is taken to be one
    [json.Marshal] accepts (the years of its two times within 0..9999). *)
Definition Save (session : Session) (fs : FileStorage)
  : FileStorage * option string :=
  if (Task session =? "")%string then
    (fs, Some "task name cannot be empty"%string)
  else if time.IsZero (StartTime session) then
    (fs, Some "start time cannot be zero"%string)
  else (fs ++ [session], None).

Definition GetAll (fs : FileStorage) : list Session := fs.

Definition GetLast (fs : FileStorage) : option Session * option string :=
  let sessions := GetAll fs in
  match rev sessions with
  | [] => (None, Some ErrNoSessions)
  | s :: _ => (Some s, None)
  end.

(** GetByDateRange keeps the sessions whose start lies between [start] and
    [end_], both bounds included. *)
Definition GetByDateRange (start end_ : time.Time) (fs : FileStorage)
  : list Session :=
  fold_left
    (fun result s =>
       if (time.After (StartTime s) start || time.Equal (StartTime s) start)
          && (time.Before (StartTime s) end_ || time.Equal (StartTime s) end_)
       then result ++ [s] else result)
    (GetAll fs) [].

Definition GetByTask (task : string) (fs : FileStorage) : list Session :=
  fold_left
    (fun result s =>
       if (Task s =? task)%string then result ++ [s] else result)
    (GetAll fs) [].

End storage.

(* ------------------------------------------------------------------ *)
(** ** package tracker: the SessionManager over a FileStorage *)

Module tracker.

Import models.

(** Result of Start and Finish: the storage afterwards, the session
    returned (nil is [None]) and the error (nil is [None]). *)
Definition Outcome : Type := storage.FileStorage * option Session * option string.

Definition Start (task : string) (now : time.Time) (fs : storage.FileStorage)
  : Outcome :=
  if (task =? "")%string then
    (fs, None, Some "task name cannot be empty"%string)
  else
    let '(lastSession, err) := storage.GetLast fs in
    match err with
    | Some e =>
        if negb (e =? ErrNoSessions)%string then
          (fs, None, Some ("error checking existing sessions: " ++ e)%string)
        else
          let session := {| Task := task; StartTime := now; EndTime := time.zero |} in
          match storage.Save session fs with
          | (fs', Some e') =>
              (fs', None, Some ("error starting the session: " ++ e')%string)
          | (fs', None) => (fs', Some session, None)
          end
    | None =>
        match lastSession with
        | Some l =>
            if time.IsZero (EndTime l) then
              (fs, None,
               Some ("error starting a new session! Previous task '"
                       ++ Task l ++ "' is not finished")%string)
            else
              let session := {| Task := task; StartTime := now; EndTime := time.zero |} in
              match storage.Save session fs with
              | (fs', Some e') =>
                  (fs', None, Some ("error starting the session: " ++ e')%string)
              | (fs', None) => (fs', Some session, None)
              end
        | None =>
            let session := {| Task := task; StartTime := now; EndTime := time.zero |} in
            match storage.Save session fs with
            | (fs', Some e') =>
                (fs', None, Some ("error starting the session: " ++ e')%string)
            | (fs', None) => (fs', Some session, None)
            end
        end
    end.

Definition Finish (now : time.Time) (fs : storage.FileStorage) : Outcome :=
  let sessions := storage.GetAll fs in
  match rev sessions with
  | [] => (fs, None, Some "no active session to finish"%string)
  | l :: _ =>
      if negb (time.IsZero (EndTime l)) then
        (fs, None,
         Some ("error ending the session! Task '" ++ Task l
                 ++ "' is already finished")%string)
      else
        let lastSession :=
          {| Task := Task l; StartTime := StartTime l; EndTime := now |} in
        match storage.Save lastSession fs with
        | (fs', Some e) =>
            (fs', None, Some ("error saving finished session: " ++ e)%string)
        | (fs', None) => (fs', Some lastSession, None)
        end
  end.

(** The commands of the session log, each with the clock reading of its
    call. *)
Inductive Cmd : Type :=
| CmdStart (task : string) (now : time.Time)
| CmdFinish (now : time.Time).

Definition exec (c : Cmd) (fs : storage.FileStorage) : Outcome :=
  match c with
  | CmdStart task now => Start task now fs
  | CmdFinish now => Finish now fs
  end.

Definition after (c : Cmd) (fs : storage.FileStorage) : storage.FileStorage :=
  fst (fst (exec c fs)).

Definition execAll (cs : list Cmd) (fs : storage.FileStorage)
  : storage.FileStorage :=
  fold_left (fun acc c => after c acc) cs fs.

(** The clock never reads the zero instant. *)
Definition clockSet (c : Cmd) : Prop :=
  match c with
  | CmdStart _ now => now <> time.zero
  | CmdFinish now => now <> time.zero
  end.

(** Number of stored records with a zero end timestamp. *)
Definition openCount (fs : storage.FileStorage) : nat :=
  List.length (filter (fun s => time.IsZero (EndTime s)) fs).

(** [c] is the record Finish writes for the open record [o]. *)
Definition closes (c o : Session) : Prop :=
  Task c = Task o /\ StartTime c = StartTime o /\ EndTime c <> time.zero.

(** Every record with a zero end timestamp is the last one of the log or is
    directly followed by the record that closes it. *)
Fixpoint paired (fs : list Session) : Prop :=
  match fs with
  | [] => True
  | o :: rest =>
      (time.IsZero (EndTime o) = true ->
       match rest with
       | [] => True
       | c :: _ => closes c o
       end)
      /\ paired rest
  end.

(** The last stored record has a zero end timestamp. *)
Definition lastOpen (fs : storage.FileStorage) : bool :=
  match rev fs with
  | l :: _ => time.IsZero (EndTime l)
  | [] => false
  end.

(** A record that Save accepts. *)
Definition storable (s : Session) : Prop :=
  Task s <> ""%string /\ StartTime s <> time.zero.

(** The statement "at most one stored record has a zero end timestamp",
    for every log produced from an empty file. *)
Definition atMostOneOpenRecord : Prop :=
  forall cs : list Cmd,
    Forall clockSet cs -> (openCount (execAll cs []) <= 1)%nat.

Definition GetSessionsForTask (task : string) (fs : storage.FileStorage)
  : list Session :=
  storage.GetByTask task fs.

(** The shape of a log: open records and the records closing them, two by
    two, with possibly one open record at the end. *)
Fixpoint alternating (fs : list Session) : Prop :=
  match fs with
  | [] => True
  | o :: rest =>
      time.IsZero (EndTime o) = true
      /\ match rest with
         | [] => True
         | c :: rest' => closes c o /\ alternating rest'
         end
  end.

(** The command succeeds (its error is nil). *)
Definition succeeds (c : Cmd) (fs : storage.FileStorage) : bool :=
  match snd (exec c fs) with
  | None => true
  | Some _ => false
  end.

End tracker.

(* ------------------------------------------------------------------ *)
(** ** package analytics

    Each function receives, after its own arguments, the reading [now] that
    a call to [time.Now()] inside it returns. *)

Module analytics.

Import models.

Definition Clocked (A : Type) : Type := time.Time -> A.

Definition selected (task : string) (ssn : Session) : bool :=
  (task =? "")%string || (Task ssn =? task)%string.

Definition CalculateTotalDuration (ssns : list Session) (task : string)
  : Clocked time.Duration :=
  fun _ =>
    fold_left
      (fun totalDuration ssn =>
         if selected task ssn then
           goint.wrap (totalDuration + time.Sub (EndTime ssn) (StartTime ssn))
         else totalDuration)
      ssns 0.




(** The loop shared by the duration totals: the sessions passing [keep]
    are added up in 64 bits. *)
Definition addUp (keep : Session -> bool) (ssns : list Session)
           (acc : time.Duration) : time.Duration :=
  fold_left
    (fun total ssn =>
       if keep ssn
       then goint.wrap (total + time.Sub (EndTime ssn) (StartTime ssn))
       else total)
    ssns acc.


(** One session of an hour at the start of day 10. *)
Definition hourOnDay10 : Session :=
  {| Task := "a";
     StartTime := 10 * time.day_ns;
     EndTime := 10 * time.day_ns + time.Hour |}.

(** [hoursInDay * time.Hour] *)
Definition day : time.Duration := 24 * time.Hour.

(** The order [sort.Slice] produces with the comparison
    [sorted[i].StartTime.After(sorted[j].StartTime)]: latest start first.
    The loop of CalculateConsecutiveDays reads the start times only, so the
    sorted slice is the list of its start times. *)
Fixpoint insertDesc (t : time.Time) (l : list time.Time) : list time.Time :=
  match l with
  | [] => [t]
  | u :: rest => if u <=? t then t :: l else u :: insertDesc t rest
  end.

Definition sortDesc (l : list time.Time) : list time.Time :=
  fold_right insertDesc [] l.

(** The loop of CalculateConsecutiveDays from index 1 on. *)
Fixpoint countBack (currentDate : time.Time) (consecutiveDays : Z)
         (rest : list time.Time) : Z :=
  match rest with
  | [] => consecutiveDays
  | t :: rest' =>
      let sessionDate := time.Truncate t day in
      if time.Sub currentDate sessionDate =? day then
        countBack sessionDate (goint.wrap (consecutiveDays + 1)) rest'
      else if day <? time.Sub currentDate sessionDate then consecutiveDays
      else countBack currentDate consecutiveDays rest'
  end.

Definition CalculateConsecutiveDays (ssns : list Session) : Clocked Z :=
  fun _ =>
    match sortDesc (map StartTime ssns) with
    | [] => 0
    | first :: rest => countBack (time.Truncate first day) 1 rest
    end.

End analytics.

(* ================================================================== *)
(** * Properties *)

(* ------------------------------------------------------------------ *)
(** ** Machine arithmetic *)

Section Arithmetic.

Lemma wrap_in_range (z : Z) : goint.in_range z -> goint.wrap z = z.
Proof.
  unfold goint.in_range, goint.wrap, goint.min_int, goint.max_int.
  intros H. rewrite Z.mod_small; lia.
Qed.

Lemma rem_nonzero (a b : Z) : b <> 0 -> goint.rem a b = Some (Z.rem a b).
Proof.
  intros H. unfold goint.rem.
  destruct (Z.eqb_spec b 0); [contradiction | reflexivity].
Qed.

Lemma rem_zero_divide (a b : Z) : b <> 0 -> (Z.rem a b = 0 <-> (b | a)).
Proof. intros H. apply Z.rem_divide. exact H. Qed.

End Arithmetic.

(* ------------------------------------------------------------------ *)
(** ** The timer engine: control calls *)

Section Control.

Import config pomodoro.

Lemma running_cases (s : State) :
  running s = true ->
  s = StateWorking \/ s = StateShortBreak \/ s = StateLongBreak.
Proof. destruct s; simpl; intros H; auto; discriminate. Qed.

Lemma State_eqb_eq (a b : State) : State_eqb a b = true <-> a = b.
Proof. destruct a, b; simpl; split; intros H; congruence. Qed.

(** C3.  Start on an engine whose phase is Working, ShortBreak or LongBreak
    returns the error "cannot start: timer is already running", makes no
    callback and hands back the engine exactly as it was: phase, remaining
    time, both counters and every other field are unchanged. *)
Theorem Start_already_running (now : time.Time) (p : Pomodoro) :
  running (state p) = true ->
  Start now p = (p, [], Some "cannot start: timer is already running"%string)
  /\ snd (Start now p) <> None
  /\ CurrentState (fst (fst (Start now p))) = CurrentState p
  /\ Remaining (fst (fst (Start now p))) = Remaining p
  /\ Cycles (fst (fst (Start now p))) = Cycles p
  /\ workSessions (fst (fst (Start now p))) = workSessions p.
Proof.
  intros H. unfold Start. rewrite H. simpl.
  repeat split. discriminate.
Qed.

Lemma Start_already_running_witness :
  let p := fst (fst (Start 7 (New oneTickWork))) in
  running (state p) = true
  /\ Start 8 p = (p, [], Some "cannot start: timer is already running"%string).
Proof.
  split; [reflexivity |].
  apply (Start_already_running 8 (fst (fst (Start 7 (New oneTickWork))))).
  reflexivity.
Defined.

(** C1 (amended).  Pausing an engine whose phase is Working, ShortBreak or
    LongBreak and calling Start next succeeds; the engine is then in phase
    Working, whatever the suspended phase was, and its remaining time is
    exactly the one it had before the Pause. *)
Theorem Start_after_Pause (now : time.Time) (p : Pomodoro) :
  running (state p) = true ->
  let paused := fst (Pause p) in
  let resumed := fst (fst (Start now paused)) in
  CurrentState paused = StatePaused
  /\ Remaining paused = Remaining p
  /\ snd (Start now paused) = None
  /\ CurrentState resumed = StateWorking
  /\ Remaining resumed = Remaining p
  /\ armed resumed = true.
Proof.
  intros H. unfold Pause. rewrite H. simpl.
  unfold Start. simpl. repeat split.
Qed.

Lemma Start_after_Pause_witness :
  let p := fst (fst (Start 7 (New oneTickWork))) in
  running (state p) = true
  /\ CurrentState (fst (fst (Start 9 (fst (Pause p))))) = StateWorking
  /\ Remaining (fst (fst (Start 9 (fst (Pause p))))) = Remaining p.
Proof.
  split; [reflexivity |].
  pose proof (Start_after_Pause 9 (fst (fst (Start 7 (New oneTickWork))))
                eq_refl) as H.
  cbv zeta in H. destruct H as (_ & _ & _ & Hs & Hr & _).
  split; [exact Hs | exact Hr].
Defined.

(** C1 (as stated) fails.  With a work phase of one tick, Start and one
    tick put the engine in ShortBreak; Pause followed by Start then leaves
    it in Working, not in ShortBreak: Start does not resume the suspended
    phase. *)
Lemma Start_after_Pause_counterexample :
  (exists p,
      run [OpStart 1; OpTick 2] (New oneTickWork) = Some p
      /\ CurrentState p = StateShortBreak
      /\ CurrentState (fst (fst (Start 3 (fst (Pause p))))) = StateWorking)
  /\ ~ resumesSuspendedPhase.
Proof.
  split.
  - eexists. split; [reflexivity |]. split; reflexivity.
  - intros H.
    destruct (run [OpStart 1; OpTick 2] (New oneTickWork)) as [p |] eqn:E;
      [| discriminate E].
    injection E as E.
    specialize (H 3 p). rewrite <- E in H.
    specialize (H eq_refl). simpl in H.
    destruct H as (_ & H & _). discriminate H.
Qed.

End Control.

(* ------------------------------------------------------------------ *)
(** ** The timer engine: Stop *)

Section Stopping.

Import config pomodoro.

(** C7.  Stop is a total function of the engine (it has no error result
    and no panic).  From every engine, Idle or not, it leaves the phase
    Idle, both counters zero, the ticker and its quit channel nil and the
    last-tick timestamp zero, and it notifies Idle; a second Stop right
    after returns the same engine and makes the same notification. *)
Theorem Stop_idempotent (p : Pomodoro) :
  let stopped := fst (Stop p) in
  CurrentState stopped = StateIdle
  /\ Cycles stopped = 0
  /\ workSessions stopped = 0
  /\ lastTick stopped = time.zero
  /\ ticker stopped = None
  /\ tickerQuit stopped = false
  /\ snd (Stop p) = notifyState p StateIdle
  /\ Stop stopped = Stop p.
Proof.
  unfold Stop, notifyState. simpl. repeat split.
Qed.

End Stopping.

(* ------------------------------------------------------------------ *)
(** ** The timer engine: phase completion *)

Section Completion.

Import config pomodoro.

Lemma nextPhase_Working (cfg : PomodoroConfig) (ws : Z) (r : time.Duration) :
  LongBreakInterval cfg <> 0 ->
  nextPhase cfg StateWorking ws r
  = Some (if (0 <? ws) && (Z.rem ws (LongBreakInterval cfg) =? 0)
          then (StateLongBreak, LongBreak cfg)
          else (StateShortBreak, BreakDuration cfg)).
Proof.
  intros Hk. unfold nextPhase. rewrite (rem_nonzero _ _ Hk).
  destruct (0 <? ws); simpl; [| reflexivity].
  destruct (Z.rem ws (LongBreakInterval cfg) =? 0); reflexivity.
Qed.

Lemma nextPhase_total (cfg : PomodoroConfig) (s : State) (ws : Z)
      (r : time.Duration) :
  LongBreakInterval cfg <> 0 ->
  exists s' r', nextPhase cfg s ws r = Some (s', r').
Proof.
  intros Hk. destruct s; simpl; eauto.
  rewrite (rem_nonzero _ _ Hk).
  destruct (0 <? ws); eauto.
  destruct (Z.rem ws (LongBreakInterval cfg) =? 0); eauto.
Qed.

Lemma cadence_test (ws k : Z) :
  0 < ws -> k <> 0 ->
  ((0 <? ws) && (Z.rem ws k =? 0) = true <-> nonzeroMultiple ws k).
Proof.
  intros Hws Hk. unfold nonzeroMultiple.
  rewrite andb_true_iff, Z.ltb_lt, Z.eqb_eq, (rem_zero_divide _ _ Hk).
  split; intros [H1 H2]; split; auto; lia.
Qed.

Lemma completeSession_total (now : time.Time) (p : Pomodoro) :
  LongBreakInterval (config p) <> 0 ->
  exists p' ev, completeSession now p = Some (p', ev).
Proof.
  intros Hk. unfold completeSession.
  destruct (nextPhase_total (config p) (state p)
              (if State_eqb (state p) StateWorking
               then goint.wrap (workSessions p + 1) else workSessions p)
              (remaining p) Hk) as (s' & r' & E).
  rewrite E. eauto.
Qed.

(** What a completion from a running phase leaves behind. *)
Lemma completeSession_running (now : time.Time) (p p' : Pomodoro)
      (ev : list Event) :
  running (state p) = true ->
  completeSession now p = Some (p', ev) ->
  config p' = config p
  /\ running (state p') = true
  /\ phaseDuration (config p) (state p') = Some (remaining p')
  /\ armed p' = (AutoStartBreak (config p) || State_eqb (state p') StateWorking)
  /\ (armed p' = false -> ticker p' = None /\ tickerQuit p' = false)
  /\ ev = notifyState p (state p').
Proof.
  intros Hr E. unfold completeSession in E.
  destruct (nextPhase (config p) (state p)
              (if State_eqb (state p) StateWorking
               then goint.wrap (workSessions p + 1) else workSessions p)
              (remaining p)) as [[s' r'] |] eqn:N; [| discriminate E].
  assert (Hs : running s' = true /\ phaseDuration (config p) s' = Some r').
  { destruct (running_cases _ Hr) as [H | [H | H]]; rewrite H in N;
      cbn [nextPhase State_eqb] in N.
    - destruct (0 <? goint.wrap (workSessions p + 1)).
      + destruct (goint.rem (goint.wrap (workSessions p + 1))
                    (LongBreakInterval (config p))) as [m |]; [| discriminate N].
        destruct (m =? 0); injection N as <- <-; split; reflexivity.
      + injection N as <- <-; split; reflexivity.
    - injection N as <- <-; split; reflexivity.
    - injection N as <- <-; split; reflexivity. }
  destruct Hs as [Hs1 Hs2].
  cbn [state config] in E.
  destruct (AutoStartBreak (config p) || State_eqb s' StateWorking) eqn:A;
    injection E as <- <-; cbn; rewrite ?A; repeat split; auto; discriminate.
Qed.

Lemma completeSession_counters (now : time.Time) (p p' : Pomodoro)
      (ev : list Event) :
  completeSession now p = Some (p', ev) ->
  (state p = StateWorking
   /\ cycles p' = goint.wrap (cycles p + 1)
   /\ workSessions p' = goint.wrap (workSessions p + 1))
  \/ (state p <> StateWorking
      /\ cycles p' = cycles p
      /\ workSessions p' = workSessions p).
Proof.
  unfold completeSession.
  destruct (nextPhase _ _ _ _) as [[s' r'] |]; [| discriminate].
  intros E.
  assert (Hc : cycles p' = (if State_eqb (state p) StateWorking
                            then goint.wrap (cycles p + 1) else cycles p)
               /\ workSessions p'
                  = (if State_eqb (state p) StateWorking
                     then goint.wrap (workSessions p + 1)
                     else workSessions p)).
  { cbn [state config] in E.
    destruct (AutoStartBreak (config p) || State_eqb s' StateWorking);
      injection E as <- _; split; reflexivity. }
  destruct Hc as [Hc Hw].
  destruct (State_eqb (state p) StateWorking) eqn:S.
  - left. apply State_eqb_eq in S. auto.
  - right. split; [| auto]. intros H. rewrite H in S. discriminate S.
Qed.

(** C2.  A completion that finds the phase Working, with a nonzero
    long-break interval and counters below the largest [int] (the
    work-session count not negative), adds one to the completed-cycle
    counter and one to the completed-work-session counter; if the new
    work-session count is a nonzero multiple of the interval the engine
    enters LongBreak with the long-break duration as remaining time,
    otherwise it enters ShortBreak with the short-break duration. *)
Theorem completeSession_from_Working (now : time.Time) (p : Pomodoro) :
  state p = StateWorking ->
  LongBreakInterval (config p) <> 0 ->
  0 <= workSessions p < goint.max_int ->
  goint.min_int <= cycles p < goint.max_int ->
  exists p' ev,
    completeSession now p = Some (p', ev)
    /\ Cycles p' = Cycles p + 1
    /\ workSessions p' = workSessions p + 1
    /\ (nonzeroMultiple (workSessions p') (LongBreakInterval (config p)) ->
        CurrentState p' = StateLongBreak
        /\ Remaining p' = LongBreak (config p))
    /\ (~ nonzeroMultiple (workSessions p') (LongBreakInterval (config p)) ->
        CurrentState p' = StateShortBreak
        /\ Remaining p' = BreakDuration (config p)).
Proof.
  intros Hs Hk0 Hws Hcy.
  assert (Ew : goint.wrap (workSessions p + 1) = workSessions p + 1).
  { apply wrap_in_range. unfold goint.in_range, goint.min_int, goint.max_int in *. lia. }
  assert (Ec : goint.wrap (cycles p + 1) = cycles p + 1).
  { apply wrap_in_range. unfold goint.in_range, goint.min_int, goint.max_int in *. lia. }
  unfold completeSession. rewrite Hs. cbn [State_eqb].
  rewrite Ew, Ec, (nextPhase_Working _ _ _ Hk0).
  pose proof (cadence_test (workSessions p + 1) (LongBreakInterval (config p))
                ltac:(lia) Hk0) as Hc.
  destruct ((0 <? workSessions p + 1)
            && (Z.rem (workSessions p + 1) (LongBreakInterval (config p)) =? 0))
    eqn:E.
  - eexists _, _. split; [reflexivity |].
    assert (Hm : nonzeroMultiple (workSessions p + 1) (LongBreakInterval (config p)))
      by (apply Hc; reflexivity).
    cbn [state config]. rewrite orb_false_r.
    destruct (AutoStartBreak (config p)); cbn;
      (split; [reflexivity |]); (split; [reflexivity |]);
      (split; intros Hn; [| contradiction]); split; reflexivity.
  - eexists _, _. split; [reflexivity |].
    assert (Hm : ~ nonzeroMultiple (workSessions p + 1) (LongBreakInterval (config p))).
    { intros Hn. apply Hc in Hn. congruence. }
    cbn [state config]. rewrite orb_false_r.
    destruct (AutoStartBreak (config p)); cbn;
      (split; [reflexivity |]); (split; [reflexivity |]);
      (split; intros Hn; [contradiction |]); split; reflexivity.
Qed.

Lemma completeSession_from_Working_witness :
  let p := fst (fst (Start 7 (New oneTickWork))) in
  exists p' ev,
    completeSession 8 p = Some (p', ev)
    /\ Cycles p' = 1
    /\ workSessions p' = 1
    /\ CurrentState p' = StateShortBreak.
Proof.
  destruct (completeSession_from_Working 8 (fst (fst (Start 7 (New oneTickWork)))))
    as (p' & ev & E & Hc & Hw & _ & Hshort).
  - reflexivity.
  - simpl. lia.
  - simpl. unfold goint.max_int. lia.
  - simpl. unfold goint.min_int, goint.max_int. lia.
  - exists p', ev. split; [exact E |]. split; [exact Hc |]. split; [exact Hw |].
    apply Hshort. rewrite Hw. simpl. intros [_ [z Hz]]. lia.
Defined.

End Completion.

(* ------------------------------------------------------------------ *)
(** ** The timer engine: ticks *)

Section Ticks.

Import config pomodoro.

Lemma tickLocked_running (p : Pomodoro) :
  running (state p) = true ->
  exists sc,
    tickLocked p
    = Some (withRemaining p (goint.wrap (remaining p - tickUnit)),
            goint.wrap (remaining p - tickUnit), sc).
Proof.
  intros Hr. unfold tickLocked. rewrite Hr. cbn [negb]. eauto.
Qed.

Lemma tick_not_running (now : time.Time) (p : Pomodoro) :
  running (state p) = false -> tick now p = ([], Some (p, true)).
Proof.
  intros Hr. unfold tick, tickLocked. rewrite Hr. reflexivity.
Qed.

(** A tick on a running phase, unfolded: either the decremented time is
    still positive and nothing else happens, or the completion runs on the
    decremented engine. *)
Lemma tick_running (now : time.Time) (p : Pomodoro) :
  running (state p) = true ->
  let r := goint.wrap (remaining p - tickUnit) in
  (0 < r -> tick now p = (notifyTick p r, Some (withRemaining p r, true)))
  /\ (r <= 0 ->
      forall p' ev, completeSession now (withRemaining p r) = Some (p', ev) ->
      exists c, tick now p = (notifyTick p r ++ ev, Some (p', c)))
  /\ (r <= 0 ->
      completeSession now (withRemaining p r) = None ->
      tick now p = (notifyTick p r, None)).
Proof.
  intros Hr r. unfold tick, tickLocked. rewrite Hr. cbn [negb].
  change (remaining (withRemaining p (goint.wrap (remaining p - tickUnit))))
    with r.
  change (withRemaining p (goint.wrap (remaining p - tickUnit)))
    with (withRemaining p r).
  repeat split.
  - intros H. apply Z.leb_gt in H. rewrite H. reflexivity.
  - intros H p' ev E. apply Z.leb_le in H. rewrite H, E. eauto.
  - intros H E. apply Z.leb_le in H. rewrite H, E. reflexivity.
Qed.

(** The four ways a tick can go. *)
Lemma tick_cases (now : time.Time) (p : Pomodoro) :
  let r := goint.wrap (remaining p - tickUnit) in
  (running (state p) = false /\ tick now p = ([], Some (p, true)))
  \/ (running (state p) = true /\ 0 < r
      /\ tick now p = (notifyTick p r, Some (withRemaining p r, true)))
  \/ (running (state p) = true /\ r <= 0
      /\ exists p' ev c,
          completeSession now (withRemaining p r) = Some (p', ev)
          /\ tick now p = (notifyTick p r ++ ev, Some (p', c)))
  \/ (running (state p) = true /\ r <= 0
      /\ completeSession now (withRemaining p r) = None
      /\ tick now p = (notifyTick p r, None)).
Proof.
  intros r. destruct (running (state p)) eqn:Hr.
  - destruct (tick_running now p Hr) as (Hpos & Hdone & Hpanic).
    fold r in Hpos, Hdone, Hpanic.
    destruct (Z.lt_ge_cases 0 r) as [Hlt | Hle]; [right; left; auto |].
    destruct (completeSession now (withRemaining p r)) as [[p' ev] |] eqn:C.
    + right; right; left. destruct (Hdone Hle p' ev eq_refl) as [c T].
      repeat split; auto. exists p', ev, c. auto.
    + right; right; right. auto.
  - left. split; [reflexivity | apply tick_not_running; exact Hr].
Qed.


(** C5.  A tick delivered while the phase is Working, ShortBreak or
    LongBreak (with a remaining time from which one tick unit can be
    subtracted in 64 bits) first sets the remaining time to its previous
    value minus exactly one tick unit, then calls the tick callback with
    that new value, before anything else; this holds as well when the new
    value is zero or negative, in which case the completion follows the
    callback.  A tick delivered while the phase is Idle or Paused returns
    the engine unchanged and calls no callback. *)
Theorem tick_decrements_then_notifies (now : time.Time) (p : Pomodoro) :
  (running (state p) = true ->
   goint.min_int + tickUnit <= remaining p <= goint.max_int ->
   let r := remaining p - tickUnit in
   (exists sc, tickLocked p = Some (withRemaining p r, r, sc))
   /\ exists rest out,
       tick now p = (notifyTick p r ++ rest, out)
       /\ (0 < r -> rest = [] /\ out = Some (withRemaining p r, true))
       /\ (r <= 0 ->
           match completeSession now (withRemaining p r) with
           | Some (p', ev) => rest = ev /\ exists c, out = Some (p', c)
           | None => rest = [] /\ out = None
           end))
  /\ (CurrentState p = StateIdle \/ CurrentState p = StatePaused ->
      tick now p = ([], Some (p, true))).
Proof.
  split.
  - intros Hr Hrange r.
    assert (W : goint.wrap (remaining p - tickUnit) = r).
    { apply wrap_in_range. unfold goint.in_range. subst r.
      unfold tickUnit, time.Millisecond, goint.min_int, goint.max_int in *. lia. }
    split.
    + destruct (tickLocked_running p Hr) as [sc E]. rewrite W in E. eauto.
    + destruct (tick_running now p Hr) as (Hpos & Hdone & Hpanic).
      rewrite W in Hpos, Hdone, Hpanic.
      destruct (Z.lt_ge_cases 0 r) as [Hlt | Hle].
      * exists [], (Some (withRemaining p r, true)).
        rewrite app_nil_r. split; [apply Hpos; exact Hlt |].
        split; [auto | lia].
      * destruct (completeSession now (withRemaining p r)) as [[p' ev] |] eqn:C.
        -- destruct (Hdone Hle p' ev eq_refl) as [c T].
           exists ev, (Some (p', c)). split; [exact T |].
           split; [lia | eauto].
        -- exists [], None. rewrite app_nil_r.
           split; [exact (Hpanic Hle eq_refl) |]. split; [lia | auto].
  - unfold CurrentState. intros [H | H]; apply tick_not_running; rewrite H;
      reflexivity.
Qed.

Lemma tick_decrements_then_notifies_witness :
  let p := fst (fst (Start 7 (New oneTickWork))) in
  exists rest out, tick 8 p = (Tick 0 :: rest, out).
Proof.
  destruct (tick_decrements_then_notifies 8 (fst (fst (Start 7 (New oneTickWork)))))
    as [H _].
  destruct H as (_ & rest & out & T & _).
  - reflexivity.
  - simpl. unfold tickUnit, time.Millisecond, goint.min_int, goint.max_int. lia.
  - exists rest, out. exact T.
Defined.



(** A break left parked by a completion refuses Start as already running,
    and stays parked. *)
Lemma parked_break_refuses_Start (now : time.Time) (p : Pomodoro) :
  CurrentState p = StateShortBreak \/ CurrentState p = StateLongBreak ->
  armed p = false ->
  snd (Start now p) <> None /\ fst (fst (Start now p)) = p.
Proof.
  unfold CurrentState, Start. intros Hs _.
  assert (Hr : running (state p) = true)
    by (destruct Hs as [H | H]; rewrite H; reflexivity).
  rewrite Hr. simpl. split; [discriminate | reflexivity].
Qed.

End Ticks.

(* ------------------------------------------------------------------ *)
(** ** The timer engine: invariants of the reachable states *)

Section Reachable.

Import config pomodoro.

(** The engine after one operation of a run. *)
Lemma step_cases (o : Op) (p p' : Pomodoro) :
  step o p = Some p' ->
  match o with
  | OpStart now => p' = fst (fst (Start now p))
  | OpPause => p' = fst (Pause p)
  | OpStop => p' = fst (Stop p)
  | OpTick now =>
      let r := goint.wrap (remaining p - tickUnit) in
      p' = p
      \/ (running (state p) = true /\ 0 < r /\ p' = withRemaining p r)
      \/ (running (state p) = true /\ r <= 0
          /\ exists ev, completeSession now (withRemaining p r) = Some (p', ev))
  end.
Proof.
  destruct o as [now | | | now]; simpl; intros E;
    try (injection E as <-; reflexivity).
  destruct (tick_cases now p)
    as [(_ & T) | [(Hr & Hlt & T) | [(Hr & Hle & q & ev & c & C & T)
                                    | (_ & _ & _ & T)]]];
    rewrite T in E; cbn [snd] in E; try discriminate E; injection E as <-.
  - left. reflexivity.
  - right; left. auto.
  - right; right. eauto.
Qed.

Lemma step_config (o : Op) (p p' : Pomodoro) :
  step o p = Some p' -> config p' = config p.
Proof.
  intros E. apply step_cases in E. destruct o as [now | | | now].
  - subst p'. unfold Start.
    destruct (running (state p)); [reflexivity |].
    destruct (State_eqb (state p) StatePaused); reflexivity.
  - subst p'. unfold Pause.
    destruct (negb (running (state p))); reflexivity.
  - subst p'. reflexivity.
  - destruct E as [-> | [(_ & _ & ->) | (Hr & _ & ev & C)]]; try reflexivity.
    destruct (completeSession_running now (withRemaining p _) p' ev Hr C)
      as (Hc & _).
    exact Hc.
Qed.

Lemma step_total (o : Op) (p : Pomodoro) :
  LongBreakInterval (config p) <> 0 -> exists p', step o p = Some p'.
Proof.
  intros Hk. destruct o as [now | | | now]; simpl; eauto.
  destruct (tick_cases now p)
    as [(_ & T) | [(_ & _ & T) | [(_ & _ & q & ev & c & _ & T)
                                 | (_ & _ & C & _)]]];
    try (rewrite T; cbn [snd]; eauto).
  destruct (completeSession_total now
              (withRemaining p (goint.wrap (remaining p - tickUnit))) Hk)
    as (q & ev & C').
  rewrite C in C'. discriminate C'.
Qed.

Lemma run_total (ops : list Op) (p : Pomodoro) :
  LongBreakInterval (config p) <> 0 -> exists p', run ops p = Some p'.
Proof.
  revert p. induction ops as [| o rest IH]; intros p Hk; simpl; eauto.
  destruct (step_total o p Hk) as [q E]. rewrite E.
  apply IH. rewrite (step_config o p q E). exact Hk.
Qed.

(** An invariant of [step] that holds of the fresh engine holds after every
    run. *)
Lemma run_invariant (I : Pomodoro -> Prop) :
  (forall o p p', I p -> step o p = Some p' -> I p') ->
  forall ops p p', I p -> run ops p = Some p' -> I p'.
Proof.
  intros Hstep ops. induction ops as [| o rest IH]; intros p p' Hp; simpl.
  - intros E. injection E as <-. exact Hp.
  - destruct (step o p) as [q |] eqn:S; [| discriminate].
    apply IH. exact (Hstep o p q Hp S).
Qed.

Lemma step_counted (o : Op) (p p' : Pomodoro) :
  cycles p = workSessions p -> step o p = Some p' ->
  cycles p' = workSessions p'.
Proof.
  intros H E. apply step_cases in E. destruct o as [now | | | now].
  - subst p'. unfold Start.
    destruct (running (state p)); [exact H |].
    destruct (State_eqb (state p) StatePaused); exact H.
  - subst p'. unfold Pause.
    destruct (negb (running (state p))); exact H.
  - subst p'. reflexivity.
  - destruct E as [-> | [(_ & _ & ->) | (_ & _ & ev & C)]]; try exact H.
    destruct (completeSession_counters now _ p' ev C)
      as [(_ & Hc & Hw) | (_ & Hc & Hw)];
      rewrite Hc, Hw; cbn [withRemaining cycles workSessions];
      rewrite H; reflexivity.
Qed.

Section Timed.

Variable cfg : PomodoroConfig.
Hypothesis positive : positiveDurations cfg.

Lemma phaseDuration_positive (s : State) (d : time.Duration) :
  phaseDuration cfg s = Some d -> 0 < d <= goint.max_int.
Proof.
  destruct positive as (Hw & Hb & Hl).
  destruct s; simpl; intros E; try discriminate; injection E as <-;
    assumption.
Qed.

Lemma step_timed (o : Op) (p p' : Pomodoro) :
  timed cfg p -> step o p = Some p' -> timed cfg p'.
Proof.
  intros [Hc Hrem] E. split; [rewrite (step_config o p p' E); exact Hc |].
  apply step_cases in E. destruct o as [now | | | now].
  - subst p'. unfold Start.
    destruct (running (state p)); [exact Hrem |].
    destruct (State_eqb (state p) StatePaused); cbn; [exact Hrem |].
    rewrite Hc. apply (phaseDuration_positive StateWorking). reflexivity.
  - subst p'. unfold Pause.
    destruct (negb (running (state p))); exact Hrem.
  - subst p'. exact Hrem.
  - destruct E as [-> | [(_ & Hlt & ->) | (Hr & _ & ev & C)]];
      [exact Hrem | |].
    + cbn. split; [exact Hlt |].
      rewrite wrap_in_range;
        unfold goint.in_range, tickUnit, time.Millisecond,
               goint.min_int, goint.max_int in *; lia.
    + destruct (completeSession_running now (withRemaining p _) p' ev Hr C)
        as (_ & _ & Hd & _).
      cbn [withRemaining config] in Hd. rewrite Hc in Hd.
      exact (phaseDuration_positive _ _ Hd).
Qed.

Lemma New_timed : timed cfg (New cfg).
Proof.
  split; [reflexivity |]. destruct positive as (Hw & _). exact Hw.
Qed.

Lemma run_timed (ops : list Op) (p : Pomodoro) :
  run ops (New cfg) = Some p -> timed cfg p.
Proof.
  apply (run_invariant (timed cfg) step_timed ops (New cfg) p New_timed).
Qed.

End Timed.

Lemma phaseDuration_cases (cfg : PomodoroConfig) (s : State)
      (d : time.Duration) :
  phaseDuration cfg s = Some d ->
  d = WorkDuration cfg \/ d = BreakDuration cfg \/ d = LongBreak cfg.
Proof.
  destruct s; simpl; intros E; try discriminate; injection E as <-; auto.
Qed.

Lemma irun_app (ops1 ops2 : list IOp) (w : Pomodoro * nat) :
  irun (ops1 ++ ops2) w
  = match irun ops1 w with
    | Some w' => irun ops2 w'
    | None => None
    end.
Proof.
  revert w. induction ops1 as [| o rest IH]; intros w; simpl; [reflexivity |].
  destruct (istep o w); [apply IH | reflexivity].
Qed.

(** Served whole, the two critical sections of a tick are the loop body
    [tick]. *)
Lemma irun_whole_step (o : Op) (p : Pomodoro) :
  irun (whole o) (p, 0%nat)
  = option_map (fun q => (q, 0%nat)) (step o p).
Proof.
  destruct o as [now | | | now]; try reflexivity.
  cbn [whole irun istep step]. unfold tick.
  destruct (tickLocked p) as [[[p1 r] sc] |]; [| reflexivity].
  destruct (r <=? 0); [| reflexivity].
  cbn [istep]. destruct (completeSession now p1) as [[p2 ev] |]; reflexivity.
Qed.

Lemma irun_whole (ops : list Op) (p : Pomodoro) :
  irun (wholeTicks ops) (p, 0%nat)
  = option_map (fun q => (q, 0%nat)) (run ops p).
Proof.
  revert p. induction ops as [| o rest IH]; intros p; [reflexivity |].
  unfold wholeTicks in *. cbn [flat_map run].
  rewrite irun_app, irun_whole_step.
  destruct (step o p) as [q |]; cbn [option_map]; [apply IH | reflexivity].
Qed.

(** An invariant of [istep] that holds of the first engine holds after
    every schedule. *)
Lemma irun_invariant (I : Pomodoro -> Prop) :
  (forall o w w', I (fst w) -> istep o w = Some w' -> I (fst w')) ->
  forall ops w w', I (fst w) -> irun ops w = Some w' -> I (fst w').
Proof.
  intros Hstep ops. induction ops as [| o rest IH]; intros w w' Hw; simpl.
  - intros E. injection E as <-. exact Hw.
  - destruct (istep o w) as [v |] eqn:S; [| discriminate].
    apply IH. exact (Hstep o w v Hw S).
Qed.

Lemma istep_total (o : IOp) (w : Pomodoro * nat) :
  LongBreakInterval (config (fst w)) <> 0 ->
  exists w', istep o w = Some w' /\ config (fst w') = config (fst w).
Proof.
  destruct w as [p owed]. cbn [fst]. intros Hk.
  destruct o as [now | | | | now]; cbn [istep].
  - eexists. split; [reflexivity |]. cbn [fst]. unfold Start.
    destruct (running (state p)); [reflexivity |].
    destruct (State_eqb (state p) StatePaused); reflexivity.
  - eexists. split; [reflexivity |]. cbn [fst]. unfold Pause.
    destruct (negb (running (state p))); reflexivity.
  - eexists. split; reflexivity.
  - unfold tickLocked. destruct (negb (running (state p)));
      eexists; split; reflexivity.
  - destruct owed as [| owed']; [eexists; split; reflexivity |].
    destruct (completeSession_total now p Hk) as (q & ev & C). rewrite C.
    eexists. split; [reflexivity |]. cbn [fst].
    unfold completeSession in C.
    destruct (nextPhase _ _ _ _) as [[s' r'] |]; [| discriminate C].
    cbn [state config] in C.
    destruct (AutoStartBreak (config p) || State_eqb s' StateWorking);
      injection C as <- _; reflexivity.
Qed.

Lemma irun_total (ops : list IOp) (w : Pomodoro * nat) :
  LongBreakInterval (config (fst w)) <> 0 -> exists w', irun ops w = Some w'.
Proof.
  revert w. induction ops as [| o rest IH]; intros w Hk; simpl; eauto.
  destruct (istep_total o w Hk) as (v & E & Hc). rewrite E.
  apply IH. rewrite Hc. exact Hk.
Qed.

Lemma istep_counted (o : IOp) (w w' : Pomodoro * nat) :
  cycles (fst w) = workSessions (fst w) -> istep o w = Some w' ->
  cycles (fst w') = workSessions (fst w').
Proof.
  destruct w as [p owed]. cbn [fst]. intros H.
  destruct o as [now | | | | now]; cbn [istep].
  - intros E. injection E as <-. cbn [fst]. unfold Start.
    destruct (running (state p)); [exact H |].
    destruct (State_eqb (state p) StatePaused); exact H.
  - intros E. injection E as <-. cbn [fst]. unfold Pause.
    destruct (negb (running (state p))); exact H.
  - intros E. injection E as <-. reflexivity.
  - unfold tickLocked. destruct (negb (running (state p)));
      intros E; injection E as <-; exact H.
  - destruct owed as [| owed']; [intros E; injection E as <-; exact H |].
    destruct (completeSession now p) as [[q ev] |] eqn:C; [| discriminate].
    intros E. injection E as <-. cbn [fst].
    destruct (completeSession_counters now p q ev C)
      as [(_ & Hc & Hw) | (_ & Hc & Hw)]; rewrite Hc, Hw, H; reflexivity.
Qed.

(** What a control call served between the two critical sections of a tick
    leaves behind: the completion finds a phase it has no case for and
    keeps the decremented remaining time. *)
Lemma control_between_halves (now : time.Time) (p : Pomodoro) :
  running (state p) = true ->
  goint.wrap (remaining p - tickUnit) <= 0 ->
  (exists q,
      irun [ITickLocked; IStop; IComplete now] (p, 0%nat) = Some (q, 0%nat)
      /\ state q = StateIdle
      /\ remaining q = goint.wrap (remaining p - tickUnit)
      /\ armed q = AutoStartBreak (config p))
  /\ (exists q,
        irun [ITickLocked; IPause; IComplete now] (p, 0%nat) = Some (q, 0%nat)
        /\ state q = StatePaused
        /\ remaining q = goint.wrap (remaining p - tickUnit)
        /\ armed q = AutoStartBreak (config p)).
Proof.
  intros Hr Hle. apply Z.leb_le in Hle.
  cbn [irun istep]. unfold tickLocked. rewrite Hr. cbn [negb].
  cbn [withRemaining remaining]. rewrite Hle.
  split.
  - unfold completeSession. cbn -[goint.wrap tickUnit].
    rewrite orb_false_r.
    destruct (AutoStartBreak (config p)); eexists;
      (split; [reflexivity |]); repeat split.
  - cbn [istep]. unfold Pause. cbn [withRemaining state]. rewrite Hr.
    unfold completeSession. cbn -[goint.wrap tickUnit].
    rewrite orb_false_r.
    destruct (AutoStartBreak (config p)); eexists;
      (split; [reflexivity |]); repeat split.
Qed.

(** C6 (amended).  For a configuration whose three durations are positive,
    after any sequence of Start, Pause, Stop and tick operations on a
    freshly built engine in which the completion of every tick is served
    right after its decrement, no completion is owed and the accessor
    Remaining returns a positive value; a value of zero or less exists only
    between the decrement and the completion, which resets it to one of the
    three configured durations.  (With a nonzero long-break interval every
    such sequence runs to its end.)  When a Stop or a Pause is served
    between the decrement and the completion of a tick that reached zero,
    the completion keeps the decremented value, zero or negative, with the
    phase Idle or Paused. *)
Theorem Remaining_positive_when_ticks_are_whole
        (cfg : PomodoroConfig) (ops : list Op) :
  positiveDurations cfg ->
  (LongBreakInterval cfg <> 0 ->
   exists p, irun (wholeTicks ops) (New cfg, 0%nat) = Some (p, 0%nat))
  /\ (forall w,
        irun (wholeTicks ops) (New cfg, 0%nat) = Some w ->
        snd w = 0%nat
        /\ 0 < Remaining (fst w)
        /\ forall now p1 r sc p2 ev,
            tickLocked (fst w) = Some (p1, r, sc) ->
            r <= 0 ->
            completeSession now p1 = Some (p2, ev) ->
            0 < Remaining p2
            /\ (Remaining p2 = WorkDuration cfg
                \/ Remaining p2 = BreakDuration cfg
                \/ Remaining p2 = LongBreak cfg))
  /\ (forall now p,
        running (state p) = true ->
        goint.wrap (remaining p - tickUnit) <= 0 ->
        (exists q,
            irun [ITickLocked; IStop; IComplete now] (p, 0%nat)
            = Some (q, 0%nat)
            /\ CurrentState q = StateIdle
            /\ Remaining q = goint.wrap (remaining p - tickUnit))
        /\ (exists q,
              irun [ITickLocked; IPause; IComplete now] (p, 0%nat)
              = Some (q, 0%nat)
              /\ CurrentState q = StatePaused
              /\ Remaining q = goint.wrap (remaining p - tickUnit))).
Proof.
  intros Hpos. split; [| split].
  - intros Hk. rewrite irun_whole.
    destruct (run_total ops (New cfg) Hk) as [p E]. rewrite E.
    exists p. reflexivity.
  - intros w E. rewrite irun_whole in E.
    destruct (run ops (New cfg)) as [p |] eqn:R; [| discriminate E].
    injection E as <-. cbn [fst snd]. split; [reflexivity |].
    destruct (run_timed cfg Hpos ops p R) as [Hc Hrem].
    unfold Remaining. split; [lia |].
    intros now p1 r sc p2 ev L Hr C.
    unfold tickLocked in L.
    destruct (running (state p)) eqn:Hrun; cbn [negb] in L; [| discriminate L].
    injection L as <- _ _.
    destruct (completeSession_running now (withRemaining p _) p2 ev Hrun C)
      as (_ & _ & Hd & _).
    cbn [withRemaining config] in Hd. rewrite Hc in Hd.
    split.
    + apply (phaseDuration_positive cfg Hpos _ _ Hd).
    + exact (phaseDuration_cases _ _ _ Hd).
  - intros now p Hr Hle.
    destruct (control_between_halves now p Hr Hle)
      as [(q1 & E1 & S1 & R1 & _) (q2 & E2 & S2 & R2 & _)].
    split; [exists q1 | exists q2]; auto.
Qed.

Lemma Remaining_positive_when_ticks_are_whole_witness :
  positiveDurations oneTickWork
  /\ exists p,
      irun (wholeTicks [OpStart 1; OpTick 2; OpPause; OpStart 3; OpTick 4;
                        OpStop])
           (New oneTickWork, 0%nat) = Some (p, 0%nat)
      /\ 0 < Remaining p.
Proof.
  assert (H : positiveDurations oneTickWork).
  { unfold positiveDurations, positiveDuration, oneTickWork, tickUnit,
      time.Minute, time.Second, time.Millisecond, goint.max_int; simpl.
    lia. }
  split; [exact H |].
  destruct (Remaining_positive_when_ticks_are_whole oneTickWork
              [OpStart 1; OpTick 2; OpPause; OpStart 3; OpTick 4; OpStop] H)
    as (Htot & Hinv & _).
  destruct Htot as [p E]; [simpl; lia |].
  exists p. split; [exact E |].
  destruct (Hinv (p, 0%nat) E) as (_ & H0 & _). exact H0.
Defined.

(** C6 (as stated) fails.  With a work phase of 50 ms, Start and the
    decrement of the first tick leave a remaining time of -50 ms and a
    completion owed; a Stop served at that point makes the phase Idle, and
    the completion, served next, has no case for Idle and keeps the -50 ms:
    no completion is owed any more and Remaining returns a negative
    value. *)
Lemma Remaining_negative_after_Stop_between_halves :
  positiveDurations halfTickWork
  /\ (exists q,
        irun [IStart 1; ITickLocked; IStop; IComplete 2]
             (New halfTickWork, 0%nat) = Some (q, 0%nat)
        /\ CurrentState q = StateIdle
        /\ Remaining q = -50000000)
  /\ ~ remainingNeverNegative.
Proof.
  assert (H : positiveDurations halfTickWork).
  { unfold positiveDurations, positiveDuration, halfTickWork,
      time.Minute, time.Second, time.Millisecond, goint.max_int; simpl.
    lia. }
  split; [exact H |]. split.
  - eexists. split; [reflexivity |]. split; reflexivity.
  - intros N.
    pose proof (N halfTickWork [IStart 1; ITickLocked; IStop; IComplete 2]
                  _ H eq_refl) as C.
    vm_compute in C. apply C. reflexivity.
Qed.

(** C10.  A fresh engine has both counters at zero.  In every engine
    reached from it by Start, Pause, Stop and ticks, whatever is served
    between the two critical sections of a tick, the completed-cycle counter
    returned by Cycles equals the completed-work-session counter.  Start,
    Pause and the decrement of a tick leave both counters as they are, Stop
    sets both to zero, and a completion adds one to each (in 64-bit
    arithmetic: exactly one below the largest [int]) when it finds the
    phase Working and leaves both as they are otherwise; a completion from
    Working with a nonzero long-break interval always takes place. *)
Theorem Cycles_equals_workSessions (cfg : PomodoroConfig) (ops : list IOp) :
  (Cycles (New cfg) = 0 /\ workSessions (New cfg) = 0)
  /\ (LongBreakInterval cfg <> 0 ->
      exists w, irun ops (New cfg, 0%nat) = Some w)
  /\ (forall w, irun ops (New cfg, 0%nat) = Some w ->
                Cycles (fst w) = workSessions (fst w))
  /\ (forall now p,
        Cycles (fst (fst (Start now p))) = Cycles p
        /\ workSessions (fst (fst (Start now p))) = workSessions p)
  /\ (forall p,
        Cycles (fst (Pause p)) = Cycles p
        /\ workSessions (fst (Pause p)) = workSessions p)
  /\ (forall p,
        Cycles (fst (Stop p)) = 0 /\ workSessions (fst (Stop p)) = 0)
  /\ (forall p p1 r sc,
        tickLocked p = Some (p1, r, sc) ->
        Cycles p1 = Cycles p /\ workSessions p1 = workSessions p)
  /\ (forall now p p' ev,
        completeSession now p = Some (p', ev) ->
        Cycles p' = (if State_eqb (state p) StateWorking
                     then goint.wrap (Cycles p + 1) else Cycles p)
        /\ workSessions p'
           = (if State_eqb (state p) StateWorking
              then goint.wrap (workSessions p + 1) else workSessions p))
  /\ (forall now p,
        CurrentState p = StateWorking ->
        LongBreakInterval (config p) <> 0 ->
        goint.min_int <= Cycles p < goint.max_int ->
        goint.min_int <= workSessions p < goint.max_int ->
        exists p' ev,
          completeSession now p = Some (p', ev)
          /\ Cycles p' = Cycles p + 1
          /\ workSessions p' = workSessions p + 1)
  /\ (forall now p p' ev c,
        tick now p = (ev, Some (p', c)) ->
        let completes :=
          State_eqb (state p) StateWorking
          && (goint.wrap (Remaining p - tickUnit) <=? 0) in
        Cycles p' = (if completes then goint.wrap (Cycles p + 1)
                     else Cycles p)
        /\ workSessions p'
           = (if completes then goint.wrap (workSessions p + 1)
              else workSessions p)).
Proof.
  assert (Hcs : forall now p p' ev,
             completeSession now p = Some (p', ev) ->
             cycles p' = (if State_eqb (state p) StateWorking
                          then goint.wrap (cycles p + 1) else cycles p)
             /\ workSessions p'
                = (if State_eqb (state p) StateWorking
                   then goint.wrap (workSessions p + 1)
                   else workSessions p)).
  { intros now p p' ev C.
    destruct (completeSession_counters now p p' ev C)
      as [(Hs & Hc & Hw) | (Hs & Hc & Hw)].
    - rewrite Hs. cbn [State_eqb]. auto.
    - destruct (State_eqb (state p) StateWorking) eqn:S; [| auto].
      apply State_eqb_eq in S. contradiction. }
  split; [split; reflexivity |].
  split; [intros Hk; apply irun_total; exact Hk |].
  split.
  { intros w E. unfold Cycles.
    apply (irun_invariant (fun q => cycles q = workSessions q) istep_counted
             ops (New cfg, 0%nat) w eq_refl E). }
  split.
  { intros now p. unfold Start, Cycles.
    destruct (running (state p)); [split; reflexivity |].
    destruct (State_eqb (state p) StatePaused); split; reflexivity. }
  split.
  { intros p. unfold Pause, Cycles.
    destruct (negb (running (state p))); split; reflexivity. }
  split; [intros p; split; reflexivity |].
  split.
  { intros p p1 r sc L. unfold tickLocked in L.
    destruct (negb (running (state p))); [discriminate L |].
    injection L as <- _ _. split; reflexivity. }
  split; [exact Hcs |].
  split.
  { intros now p Hs Hk Hc Hw. unfold CurrentState, Cycles in *.
    destruct (completeSession_total now p Hk) as (p' & ev & C).
    exists p', ev. split; [exact C |].
    destruct (Hcs now p p' ev C) as [H1 H2].
    rewrite Hs in H1, H2. cbn [State_eqb] in H1, H2.
    rewrite H1, H2, !wrap_in_range;
      unfold goint.in_range, goint.min_int, goint.max_int in *;
      lia. }
  intros now p p' ev c T. unfold Cycles, Remaining. cbv zeta.
  destruct (tick_cases now p)
    as [(Hr & T') | [(_ & Hlt & T') | [(Hr & Hle & q & ev' & c' & C & T')
                                     | (_ & _ & _ & T')]]];
    rewrite T' in T; try discriminate T; injection T as _ <- _.
  - assert (S : State_eqb (state p) StateWorking = false)
      by (destruct (state p); try reflexivity; discriminate Hr).
    rewrite S. split; reflexivity.
  - apply Z.leb_gt in Hlt. rewrite Hlt, andb_false_r. split; reflexivity.
  - apply Z.leb_le in Hle. rewrite Hle, andb_true_r.
    exact (Hcs now _ q ev' C).
Qed.

End Reachable.

(* ------------------------------------------------------------------ *)
(** ** The session log *)

Section SessionLog.

Import models tracker.

Lemma IsZero_true (t : time.Time) : time.IsZero t = true <-> t = time.zero.
Proof. unfold time.IsZero, time.zero. apply Z.eqb_eq. Qed.

Lemma IsZero_false (t : time.Time) : time.IsZero t = false <-> t <> time.zero.
Proof. unfold time.IsZero, time.zero. apply Z.eqb_neq. Qed.

Lemma Save_storable (s : Session) (fs : storage.FileStorage) :
  storable s -> storage.Save s fs = (fs ++ [s], None).
Proof.
  intros [Ht Hs]. unfold storage.Save.
  apply String.eqb_neq in Ht. rewrite Ht.
  apply IsZero_false in Hs. rewrite Hs. reflexivity.
Qed.

Lemma Save_cases (s : Session) (fs : storage.FileStorage) :
  (exists e, storage.Save s fs = (fs, Some e))
  \/ (storable s /\ storage.Save s fs = (fs ++ [s], None)).
Proof.
  unfold storage.Save, storable.
  destruct (String.eqb_spec (Task s) ""); [left; eauto |].
  destruct (time.IsZero (StartTime s)) eqn:Z; [left; eauto |].
  right. apply IsZero_false in Z. auto.
Qed.

(** Start either fails and leaves the file as it is, or finds the last
    record closed (or no record) and appends an open one. *)
Lemma Start_cases (task : string) (now : time.Time) (fs : storage.FileStorage) :
  (exists e, Start task now fs = (fs, None, Some e))
  \/ (let s := {| Task := task; StartTime := now; EndTime := time.zero |} in
      lastOpen fs = false /\ storable s
      /\ Start task now fs = (fs ++ [s], Some s, None)).
Proof.
  unfold Start, lastOpen, storage.GetLast, storage.GetAll.
  destruct (task =? "")%string; [left; eauto |].
  set (s := {| Task := task; StartTime := now; EndTime := time.zero |}).
  destruct (rev fs) as [| l rest].
  - change (negb (ErrNoSessions =? ErrNoSessions)%string) with false.
    cbv iota beta.
    destruct (Save_cases s fs) as [[e E] | [Hs E]]; rewrite E;
      [left; eauto | right; auto].
  - destruct (time.IsZero (EndTime l)); [left; eauto |].
    destruct (Save_cases s fs) as [[e E] | [Hs E]]; rewrite E;
      [left; eauto | right; auto].
Qed.

(** Finish either fails and leaves the file as it is, or finds the last
    record open and appends a copy of it with the end timestamp set. *)
Lemma Finish_cases (now : time.Time) (fs : storage.FileStorage) :
  (exists e, Finish now fs = (fs, None, Some e))
  \/ (exists l rest,
        let s := {| Task := Task l; StartTime := StartTime l; EndTime := now |} in
        rev fs = l :: rest /\ time.IsZero (EndTime l) = true /\ storable s
        /\ Finish now fs = (fs ++ [s], Some s, None)).
Proof.
  unfold Finish, storage.GetAll.
  destruct (rev fs) as [| l rest]; [left; eauto |].
  destruct (time.IsZero (EndTime l)) eqn:Z; cbn [negb]; [| left; eauto].
  set (s := {| Task := Task l; StartTime := StartTime l; EndTime := now |}).
  destruct (Save_cases s fs) as [[e E] | [Hs E]]; rewrite E.
  - left; eauto.
  - right. exists l, rest. auto.
Qed.

Lemma paired_snoc (fs : list Session) (s : Session) :
  paired fs ->
  (forall l rest, rev fs = l :: rest ->
                  time.IsZero (EndTime l) = true -> closes s l) ->
  paired (fs ++ [s]).
Proof.
  induction fs as [| o rest IH]; intros Hp Hl.
  - simpl. auto.
  - destruct Hp as [Ho Hp]. cbn [app paired]. split.
    + intros Hz. destruct rest as [| c r'].
      * simpl. apply (Hl o []); [reflexivity | exact Hz].
      * simpl. exact (Ho Hz).
    + apply IH; [exact Hp |].
      intros l t Hr Hz.
      apply (Hl l (t ++ [o])); [| exact Hz].
      simpl. rewrite Hr. reflexivity.
Qed.

Lemma lastOpen_snoc (fs : list Session) (s : Session) :
  lastOpen (fs ++ [s]) = time.IsZero (EndTime s).
Proof. unfold lastOpen. rewrite rev_unit. reflexivity. Qed.

(** What every command keeps true of the file. *)
Lemma exec_keeps (c : Cmd) (fs : storage.FileStorage) :
  clockSet c ->
  paired fs /\ Forall storable fs ->
  paired (after c fs) /\ Forall storable (after c fs).
Proof.
  intros Hc [Hp Hs]. unfold after. destruct c as [task now | now]; simpl.
  - destruct (Start_cases task now fs) as [[e E] | (Hl & Hst & E)];
      rewrite E; simpl; [auto |].
    split.
    + apply paired_snoc; [exact Hp |].
      intros l rest Hr Hz. unfold lastOpen in Hl. rewrite Hr in Hl. congruence.
    + apply Forall_app. split; [exact Hs | constructor; [exact Hst | constructor]].
  - destruct (Finish_cases now fs) as [[e E] | (l & rest & Hr & Hz & Hst & E)];
      rewrite E; simpl; [auto |].
    split.
    + apply paired_snoc; [exact Hp |].
      intros l' rest' Hr' _. rewrite Hr in Hr'. injection Hr' as <- _.
      unfold closes. simpl. auto.
    + apply Forall_app. split; [exact Hs | constructor; [exact Hst | constructor]].
Qed.

Lemma execAll_keeps (cs : list Cmd) (fs : storage.FileStorage) :
  Forall clockSet cs ->
  paired fs /\ Forall storable fs ->
  paired (execAll cs fs) /\ Forall storable (execAll cs fs).
Proof.
  revert fs. induction cs as [| c rest IH]; intros fs Hc H; simpl; [exact H |].
  inversion Hc as [| ? ? Hc1 Hc2]; subst.
  apply IH; [exact Hc2 |]. apply exec_keeps; assumption.
Qed.

(** C8 (amended).  In every log produced from an empty file by Start and
    Finish commands, a stored record with a zero end timestamp is either the
    last record or is directly followed by the record that closes it (same
    task, same start, nonzero end).  While the last record is open, Start
    fails and leaves the file as it is; Finish then appends the closing
    record, after which the last record is closed. *)
Theorem session_log_pairs_open_records (cs : list Cmd) :
  Forall clockSet cs ->
  let fs := execAll cs [] in
  paired fs
  /\ (forall task now,
        lastOpen fs = true -> exists e, Start task now fs = (fs, None, Some e))
  /\ (forall now,
        now <> time.zero ->
        lastOpen fs = true ->
        exists s,
          Finish now fs = (fs ++ [s], Some s, None)
          /\ EndTime s = now
          /\ lastOpen (fs ++ [s]) = false).
Proof.
  intros Hc fs.
  destruct (execAll_keeps cs [] Hc) as [Hp Hs];
    [split; [exact I | constructor] |].
  fold fs in Hp, Hs. split; [exact Hp |]. split.
  - intros task now Hl.
    destruct (Start_cases task now fs) as [H | (Hl' & _)]; [exact H |].
    congruence.
  - intros now Hn Hl. unfold lastOpen in Hl.
    destruct (Finish_cases now fs) as [[e E] | (l & rest & Hr & Hz & Hst & E)].
    + exfalso. unfold Finish, storage.GetAll in E.
      destruct (rev fs) as [| l rest] eqn:Hr; [discriminate Hl |].
      rewrite Hl in E. cbn [negb] in E.
      assert (Hl' : storable l).
      { apply (proj1 (Forall_forall storable fs) Hs).
        apply in_rev. rewrite Hr. left. reflexivity. }
      rewrite Save_storable in E; [| exact Hl'].
      injection E as E _. 
      apply (f_equal (@List.length Session)) in E.
      rewrite length_app in E. simpl in E. lia.
    + eexists. split; [exact E |]. split; [reflexivity |].
      rewrite lastOpen_snoc. simpl. apply IsZero_false. exact Hn.
Qed.

Lemma session_log_pairs_open_records_witness :
  Forall clockSet [CmdStart "a" 1; CmdFinish 2; CmdStart "b" 3]
  /\ paired (execAll [CmdStart "a" 1; CmdFinish 2; CmdStart "b" 3] []).
Proof.
  assert (H : Forall clockSet [CmdStart "a" 1; CmdFinish 2; CmdStart "b" 3]).
  { repeat constructor; simpl; unfold time.zero; lia. }
  split; [exact H |].
  exact (proj1 (session_log_pairs_open_records _ H)).
Defined.

(** C8 (as stated) fails.  Starting "a", finishing it and starting "b"
    leaves three records in the file, two of which have a zero end
    timestamp; already after the Finish the open record of "a" is still
    stored. *)
Lemma session_log_two_open_records :
  execAll [CmdStart "a" 1; CmdFinish 2; CmdStart "b" 3] []
  = [ {| Task := "a"; StartTime := 1; EndTime := 0 |};
      {| Task := "a"; StartTime := 1; EndTime := 2 |};
      {| Task := "b"; StartTime := 3; EndTime := 0 |} ]
  /\ openCount (execAll [CmdStart "a" 1; CmdFinish 2; CmdStart "b" 3] []) = 2%nat
  /\ openCount (execAll [CmdStart "a" 1; CmdFinish 2] []) = 1%nat
  /\ ~ atMostOneOpenRecord.
Proof.
  split; [reflexivity |]. split; [reflexivity |]. split; [reflexivity |].
  intros H.
  specialize (H [CmdStart "a" 1; CmdFinish 2; CmdStart "b" 3]).
  assert (Hc : Forall clockSet [CmdStart "a" 1; CmdFinish 2; CmdStart "b" 3]).
  { repeat constructor; simpl; unfold time.zero; lia. }
  specialize (H Hc).
  change (openCount (execAll [CmdStart "a" 1; CmdFinish 2; CmdStart "b" 3] []))
    with 2%nat in H.
  lia.
Qed.

End SessionLog.

(* ------------------------------------------------------------------ *)
(** ** The analytics *)

Section Analytics.

Import models analytics.




End Analytics.

(* ================================================================== *)
(** * Further properties of the code *)

(* ------------------------------------------------------------------ *)
(** ** The timer engine: control calls, continued *)

Section ControlMore.

Import config pomodoro.

(** X1.  Start returns a nil error exactly when the phase is Idle or
    Paused.  It then enters Working, arms a running ticker stamped with the
    current time, keeps both counters, notifies Working, and sets the
    remaining time to the work duration unless the phase was Paused, in
    which case the remaining time is kept. *)
Theorem Start_succeeds_iff_not_running (now : time.Time) (p : Pomodoro) :
  (snd (Start now p) = None <-> running (state p) = false)
  /\ (running (state p) = false ->
      let p' := fst (fst (Start now p)) in
      CurrentState p' = StateWorking
      /\ Remaining p' = (if State_eqb (state p) StatePaused
                         then Remaining p else WorkDuration (config p))
      /\ armed p' = true
      /\ tickerQuit p' = true
      /\ lastTick p' = now
      /\ Cycles p' = Cycles p
      /\ workSessions p' = workSessions p
      /\ snd (fst (Start now p)) = notifyState p StateWorking).
Proof.
  unfold Start. destruct (running (state p)) eqn:Hr; simpl.
  - split; [split; discriminate | discriminate].
  - split; [split; reflexivity |]. intros _.
    destruct (State_eqb (state p) StatePaused); repeat split.
Qed.

(** X2.  Pause does nothing, and notifies nothing, when the phase is Idle
    or Paused; in a running phase it stops the ticker, enters Paused and
    notifies Paused.  A second Pause in a row is therefore always without
    effect. *)
Theorem Pause_twice (p : Pomodoro) :
  (running (state p) = false -> Pause p = (p, []))
  /\ (running (state p) = true ->
      CurrentState (fst (Pause p)) = StatePaused
      /\ armed (fst (Pause p)) = false
      /\ Remaining (fst (Pause p)) = Remaining p
      /\ snd (Pause p) = notifyState p StatePaused)
  /\ Pause (fst (Pause p)) = (fst (Pause p), []).
Proof.
  unfold Pause. destruct (running (state p)) eqn:Hr; simpl.
  - split; [discriminate |]. split; [| reflexivity]. intros _.
    repeat split. unfold armed. simpl. destruct (ticker p); reflexivity.
  - split; [reflexivity |]. split; [discriminate |]. rewrite Hr. reflexivity.
Qed.

(** X3.  The five states have five different names, none of them
    "unknown". *)
Theorem State_String_injective (a b : State) :
  (State_String a = State_String b -> a = b)
  /\ State_String a <> "unknown"%string.
Proof.
  split; [| destruct a; discriminate].
  destruct a, b; simpl; intros H; try reflexivity; discriminate H.
Qed.

End ControlMore.


(* ------------------------------------------------------------------ *)
(** ** The timer engine: counting down *)

Section CountDown.

Import config pomodoro.

Lemma withRemaining_same (p : Pomodoro) : withRemaining p (remaining p) = p.
Proof. destruct p; reflexivity. Qed.

Lemma run_app (ops1 ops2 : list Op) (p : Pomodoro) :
  run (ops1 ++ ops2) p
  = match run ops1 p with
    | Some q => run ops2 q
    | None => None
    end.
Proof.
  revert p. induction ops1 as [| o rest IH]; intros p; simpl; [reflexivity |].
  destruct (step o p); [apply IH | reflexivity].
Qed.

(** X5.  While the ticks received so far amount to less than the remaining
    time, a running phase only counts down: after [k] ticks the engine is the
    one it was, with [k] tick units taken off the remaining time. *)
Theorem ticks_count_down (nows : list time.Time) (p : Pomodoro) :
  running (state p) = true ->
  remaining p <= goint.max_int ->
  Z.of_nat (List.length nows) * tickUnit < remaining p ->
  run (map OpTick nows) p
  = Some (withRemaining p
            (remaining p - Z.of_nat (List.length nows) * tickUnit)).
Proof.
  revert p. induction nows as [| now rest IH]; intros p Hr Hmax Hlt.
  - simpl. rewrite Z.sub_0_r, withRemaining_same. reflexivity.
  - cbn [map run step List.length] in *.
    rewrite Nat2Z.inj_succ in *.
    set (k := Z.of_nat (List.length rest)) in *.
    assert (Hu : 0 < tickUnit) by (unfold tickUnit, time.Millisecond; lia).
    assert (Hk : 0 <= k * tickUnit)
      by (apply Z.mul_nonneg_nonneg; [apply Nat2Z.is_nonneg | lia]).
    assert (Ek : Z.succ k * tickUnit = k * tickUnit + tickUnit) by ring.
    rewrite Ek in Hlt |- *.
    assert (W : goint.wrap (remaining p - tickUnit) = remaining p - tickUnit).
    { apply wrap_in_range.
      unfold goint.in_range, goint.min_int, goint.max_int in *. lia. }
    destruct (tick_running now p Hr) as (Hpos & _). rewrite W in Hpos.
    rewrite Hpos by lia. cbn [snd].
    rewrite IH; cbn [withRemaining state remaining]; try assumption; try lia.
    replace (remaining p - (k * tickUnit + tickUnit))
      with (remaining p - tickUnit - k * tickUnit) by lia.
    reflexivity.
Qed.

Lemma ticks_count_down_witness :
  let p := fst (fst (Start 1 (New Default))) in
  run (map OpTick [2; 3; 4]) p
  = Some (withRemaining p (remaining p - 3 * tickUnit)).
Proof.
  apply (ticks_count_down [2; 3; 4] (fst (fst (Start 1 (New Default))))).
  - reflexivity.
  - vm_compute. discriminate.
  - vm_compute. reflexivity.
Defined.

(** X6.  A running phase ends on the first tick that brings the total of
    the ticks received to its remaining time or beyond: if [k] ticks amount
    to less than the remaining time and [k + 1] ticks reach it, then after
    [k + 1] ticks the engine is the one the completion produces (from the
    engine counted down by [k + 1] units), and not before. *)
Theorem phase_ends_on_the_covering_tick (nows : list time.Time)
        (now : time.Time) (p : Pomodoro) :
  running (state p) = true ->
  remaining p <= goint.max_int ->
  Z.of_nat (List.length nows) * tickUnit < remaining p ->
  remaining p <= (Z.of_nat (List.length nows) + 1) * tickUnit ->
  run (map OpTick (nows ++ [now])) p
  = option_map fst
      (completeSession now
         (withRemaining p
            (remaining p - (Z.of_nat (List.length nows) + 1) * tickUnit))).
Proof.
  intros Hr Hmax Hlt Hle.
  rewrite map_app, run_app, (ticks_count_down nows p Hr Hmax Hlt).
  set (k := Z.of_nat (List.length nows)) in *.
  set (q := withRemaining p (remaining p - k * tickUnit)).
  assert (Hu : 0 < tickUnit) by (unfold tickUnit, time.Millisecond; lia).
  assert (Hq : running (state q) = true) by exact Hr.
  assert (W : goint.wrap (remaining q - tickUnit)
              = remaining p - (k + 1) * tickUnit).
  { cbn [q withRemaining remaining]. rewrite wrap_in_range; [lia |].
    unfold goint.in_range, goint.min_int, goint.max_int in *.
    unfold tickUnit, time.Millisecond in *. lia. }
  cbn [map run step].
  destruct (tick_running now q Hq) as (_ & Hdone & Hpanic).
  rewrite W in Hdone, Hpanic.
  change (withRemaining q (remaining p - (k + 1) * tickUnit))
    with (withRemaining p (remaining p - (k + 1) * tickUnit))
    in Hdone, Hpanic.
  destruct (completeSession now
              (withRemaining p (remaining p - (k + 1) * tickUnit)))
    as [[p' ev] |] eqn:C.
  - destruct (Hdone ltac:(lia) p' ev eq_refl) as [c T]. rewrite T. reflexivity.
  - rewrite (Hpanic ltac:(lia) eq_refl). reflexivity.
Qed.

Lemma phase_ends_on_the_covering_tick_witness :
  let p := withRemaining (fst (fst (Start 1 (New Default)))) (25 * tickUnit / 10) in
  run (map OpTick ([2; 3] ++ [4])) p
  = option_map fst
      (completeSession 4 (withRemaining p (remaining p - (2 + 1) * tickUnit))).
Proof.
  apply (phase_ends_on_the_covering_tick [2; 3] 4
           (withRemaining (fst (fst (Start 1 (New Default))))
                          (25 * tickUnit / 10))).
  - reflexivity.
  - vm_compute. discriminate.
  - vm_compute. reflexivity.
  - vm_compute. discriminate.
Defined.

End CountDown.

(* ------------------------------------------------------------------ *)
(** ** The timer engine: more invariants of the reachable states *)

Section ReachableMore.

Import config pomodoro.





(** X19.  A Stop served between the two critical sections of the tick that
    ends a phase does not keep the completion from running: with
    auto-continue set, the completion arms a fresh ticker although the
    phase is Idle.  The engine is then Idle with its counters at zero, the
    decremented remaining time (zero or less) and a running ticker, whose
    ticks change nothing. *)
Theorem Stop_between_halves_leaves_ticker_running
        (now : time.Time) (p : Pomodoro) :
  running (state p) = true ->
  goint.wrap (remaining p - tickUnit) <= 0 ->
  AutoStartBreak (config p) = true ->
  exists q,
    irun [ITickLocked; IStop; IComplete now] (p, 0%nat) = Some (q, 0%nat)
    /\ CurrentState q = StateIdle
    /\ Cycles q = 0
    /\ Remaining q = goint.wrap (remaining p - tickUnit)
    /\ armed q = true
    /\ forall nows, fires nows q = Some q.
Proof.
  intros Hr Hle Ha.
  destruct (control_between_halves now p Hr Hle)
    as [(q & E & Hs & Hrem & Harm) _].
  exists q. split; [exact E |]. split; [exact Hs |].
  assert (Hc : Cycles q = 0).
  { revert E. apply Z.leb_le in Hle.
    cbn [irun istep]. unfold tickLocked. rewrite Hr. cbn [negb].
    cbn [withRemaining remaining]. rewrite Hle.
    unfold completeSession. cbn -[goint.wrap tickUnit].
    rewrite orb_false_r, Ha. intros E. injection E as <-. reflexivity. }
  split; [exact Hc |]. split; [exact Hrem |].
  split; [rewrite Harm; exact Ha |].
  intros nows. induction nows as [| n rest IH]; [reflexivity |].
  cbn [fires]. unfold fire. rewrite Harm, Ha.
  rewrite tick_not_running by (rewrite Hs; reflexivity).
  cbn [snd]. exact IH.
Qed.

Lemma Stop_between_halves_leaves_ticker_running_witness :
  exists q,
    irun [ITickLocked; IStop; IComplete 2]
         (fst (fst (Start 1 (New halfTickWork))), 0%nat) = Some (q, 0%nat)
    /\ CurrentState q = StateIdle
    /\ armed q = true.
Proof.
  destruct (Stop_between_halves_leaves_ticker_running
              2 (fst (fst (Start 1 (New halfTickWork)))))
    as (q & E & Hs & _ & _ & Ha & _).
  - reflexivity.
  - vm_compute. discriminate.
  - reflexivity.
  - exists q. auto.
Defined.

(** What a completion does to the work-session count and to the kind of
    break. *)
Lemma completeSession_kind (now : time.Time) (p p' : Pomodoro)
      (ev : list Event) :
  completeSession now p = Some (p', ev) ->
  running (state p) = true ->
  0 <= workSessions p < goint.max_int ->
  workSessions p <= workSessions p' <= workSessions p + 1
  /\ breakMatchesCount p'.
Proof.
  intros C Hr Hws.
  assert (Ew : goint.wrap (workSessions p + 1) = workSessions p + 1).
  { apply wrap_in_range.
    unfold goint.in_range, goint.min_int, goint.max_int in *. lia. }
  unfold completeSession in C.
  destruct (running_cases _ Hr) as [Hs | [Hs | Hs]]; rewrite Hs in C;
    cbn [State_eqb nextPhase] in C.
  - rewrite Ew in C.
    assert (Hp : (0 <? workSessions p + 1) = true) by (apply Z.ltb_lt; lia).
    rewrite Hp in C. unfold goint.rem in C.
    destruct (Z.eqb_spec (LongBreakInterval (config p)) 0) as [| Hk];
      [discriminate C |].
    destruct (Z.eqb_spec (Z.rem (workSessions p + 1)
                                (LongBreakInterval (config p))) 0)
      as [Hm | Hm]; cbn [state config] in C.
    + assert (E : workSessions p' = workSessions p + 1
                  /\ state p' = StateLongBreak /\ config p' = config p).
      { destruct (AutoStartBreak (config p)
                  || State_eqb StateLongBreak StateWorking);
          injection C as <- _; repeat split. }
      destruct E as (E1 & E2 & E3). split; [lia |].
      unfold breakMatchesCount. rewrite E1, E2, E3.
      split; [intros _ | discriminate].
      split; [lia | apply rem_zero_divide; assumption].
    + assert (E : workSessions p' = workSessions p + 1
                  /\ state p' = StateShortBreak /\ config p' = config p).
      { destruct (AutoStartBreak (config p)
                  || State_eqb StateShortBreak StateWorking);
          injection C as <- _; repeat split. }
      destruct E as (E1 & E2 & E3). split; [lia |].
      unfold breakMatchesCount. rewrite E1, E2, E3.
      split; [discriminate | intros _].
      split; [lia |]. intros [_ Hd]. apply Hm.
      apply rem_zero_divide; assumption.
  - cbn [state config State_eqb] in C. rewrite orb_true_r in C.
    injection C as <- _. cbn. split; [lia |].
    split; cbn; discriminate.
  - cbn [state config State_eqb] in C. rewrite orb_true_r in C.
    injection C as <- _. cbn. split; [lia |].
    split; cbn; discriminate.
Qed.

Lemma step_count_and_kind (o : Op) (p p' : Pomodoro) (B : Z) :
  step o p = Some p' ->
  0 <= workSessions p <= B ->
  B < goint.max_int ->
  breakMatchesCount p ->
  0 <= workSessions p' <= B + Z.of_nat (tickCount [o])
  /\ breakMatchesCount p'.
Proof.
  intros E Hws HB Hk. apply step_cases in E.
  destruct o as [now | | | now]; cbn [tickCount].
  - subst p'. unfold Start. destruct (running (state p));
      [split; [cbn; lia | exact Hk] |].
    destruct (State_eqb (state p) StatePaused); cbn;
      (split; [lia | split; cbn; discriminate]).
  - subst p'. unfold Pause. destruct (negb (running (state p)));
      [split; [cbn; lia | exact Hk] |].
    cbn. split; [lia | split; cbn; discriminate].
  - subst p'. cbn. split; [lia | split; cbn; discriminate].
  - destruct E as [-> | [(_ & _ & ->) | (Hr & _ & ev & C)]].
    + split; [lia | exact Hk].
    + split; [cbn; lia | exact Hk].
    + destruct (completeSession_kind now (withRemaining p _) p' ev C Hr)
        as [Hb Hk']; [cbn [withRemaining workSessions]; lia |].
      cbn [withRemaining workSessions] in Hb. split; [lia | exact Hk'].
Qed.

Lemma run_count_and_kind (ops : list Op) (p p' : Pomodoro) (B : Z) :
  run ops p = Some p' ->
  0 <= workSessions p <= B ->
  B + Z.of_nat (tickCount ops) <= goint.max_int ->
  breakMatchesCount p ->
  0 <= workSessions p' <= B + Z.of_nat (tickCount ops)
  /\ breakMatchesCount p'.
Proof.
  revert p B. induction ops as [| o rest IH]; intros p B E Hws HB Hk.
  - simpl in E. injection E as <-. simpl. split; [lia | exact Hk].
  - simpl in E. destruct (step o p) as [q |] eqn:S; [| discriminate E].
    assert (Hc : Z.of_nat (tickCount (o :: rest))
                 = Z.of_nat (tickCount [o]) + Z.of_nat (tickCount rest)).
    { destruct o; cbn [tickCount]; lia. }
    rewrite Hc in *.
    destruct (Nat.eq_dec (tickCount [o]) 0) as [Z0 | Z0].
    + assert (Hq : 0 <= workSessions q <= B /\ breakMatchesCount q).
      { destruct o as [now | | | now]; try discriminate Z0;
          apply step_cases in S; subst q.
        - unfold Start. destruct (running (state p)); [auto |].
          destruct (State_eqb (state p) StatePaused); cbn;
            (split; [lia | split; cbn; discriminate]).
        - unfold Pause. destruct (negb (running (state p))); [auto |].
          cbn. split; [lia | split; cbn; discriminate].
        - cbn. split; [lia | split; cbn; discriminate]. }
      destruct Hq as [Hq1 Hq2]. rewrite Z0 in *.
      destruct (IH q B E Hq1 ltac:(lia) Hq2) as [H1 H2].
      split; [lia | exact H2].
    + assert (Z1 : tickCount [o] = 1%nat) by (destruct o; cbn in *; lia).
      rewrite Z1 in *.
      destruct (step_count_and_kind o p q B S Hws ltac:(lia) Hk) as [Hq1 Hq2].
      rewrite Z1 in Hq1.
      destruct (IH q (B + 1) E ltac:(lia) ltac:(lia) Hq2) as [H1 H2].
      split; [lia | exact H2].
Qed.

(** X8.  The completed-cycle counter never exceeds the number of ticks
    received: after any sequence of operations on a fresh engine (with
    fewer ticks than the largest [int]) Cycles is between zero and the
    number of ticks in the sequence. *)
Theorem Cycles_at_most_ticks (cfg : PomodoroConfig) (ops : list Op)
        (p : Pomodoro) :
  run ops (New cfg) = Some p ->
  Z.of_nat (tickCount ops) <= goint.max_int ->
  0 <= Cycles p <= Z.of_nat (tickCount ops).
Proof.
  intros E Hn.
  assert (Hc : cycles p = workSessions p)
    by (apply (run_invariant _ step_counted ops (New cfg) p eq_refl E)).
  destruct (run_count_and_kind ops (New cfg) p 0 E) as [H _].
  - cbn. lia.
  - lia.
  - split; cbn; discriminate.
  - unfold Cycles. rewrite Hc. lia.
Qed.

Lemma Cycles_at_most_ticks_witness :
  exists p,
    run [OpStart 1; OpTick 2; OpPause; OpStart 3; OpTick 4] (New oneTickWork)
    = Some p
    /\ 0 <= Cycles p <= 2.
Proof.
  eexists. split; [reflexivity |].
  apply (Cycles_at_most_ticks oneTickWork
           [OpStart 1; OpTick 2; OpPause; OpStart 3; OpTick 4]);
    [reflexivity | vm_compute; discriminate].
Defined.

(** X9.  In every engine reached from a fresh one (with fewer ticks than
    the largest [int]), the phase is LongBreak only when the work-session
    count is a nonzero multiple of the long-break interval, and ShortBreak
    only when the count is positive and not such a multiple. *)
Theorem break_kind_follows_count (cfg : PomodoroConfig) (ops : list Op)
        (p : Pomodoro) :
  run ops (New cfg) = Some p ->
  Z.of_nat (tickCount ops) <= goint.max_int ->
  (CurrentState p = StateLongBreak ->
   nonzeroMultiple (workSessions p) (LongBreakInterval cfg))
  /\ (CurrentState p = StateShortBreak ->
      0 < workSessions p
      /\ ~ nonzeroMultiple (workSessions p) (LongBreakInterval cfg)).
Proof.
  intros E Hn.
  assert (Hcfg : config p = cfg).
  { apply (run_invariant (fun q => config q = cfg)) with (ops := ops)
                                                         (p := New cfg);
      [| reflexivity | exact E].
    intros o q q' Hq S. rewrite (step_config o q q' S). exact Hq. }
  destruct (run_count_and_kind ops (New cfg) p 0 E) as [_ H].
  - cbn. lia.
  - lia.
  - split; cbn; discriminate.
  - unfold breakMatchesCount in H. rewrite Hcfg in H. exact H.
Qed.

Lemma break_kind_follows_count_witness :
  exists p,
    run [OpStart 1; OpTick 2] (New oneTickWork) = Some p
    /\ CurrentState p = StateShortBreak
    /\ 0 < workSessions p.
Proof.
  eexists. split; [reflexivity |]. split; [reflexivity |].
  apply (break_kind_follows_count oneTickWork [OpStart 1; OpTick 2]);
    [reflexivity | vm_compute; discriminate | reflexivity].
Defined.

(** X10.  Every state-change notification made by an operation carries the
    phase the engine is in once the operation is done; a tick makes its
    tick notification first, with the decremented remaining time. *)
Theorem notifications_carry_new_state (o : Op) (p p' : Pomodoro) :
  step o p = Some p' ->
  (forall s, In (StateChange s) (stepEvents o p) -> s = CurrentState p')
  /\ (forall r, In (Tick r) (stepEvents o p) ->
      exists now, o = OpTick now
                  /\ r = goint.wrap (Remaining p - tickUnit)).
Proof.
  intros E. unfold CurrentState, Remaining.
  destruct o as [now | | | now]; simpl in E |- *.
  - injection E as <-. unfold Start, notifyState.
    destruct (running (state p)); cbn; [split; intros ? [] |].
    destruct (State_eqb (state p) StatePaused); cbn;
      destruct (onStateChange p); cbn;
      (split; [intros s [H | []]; congruence | intros r [H | []]; discriminate H])
      || (split; intros ? []).
  - injection E as <-. unfold Pause, notifyState.
    destruct (negb (running (state p))); cbn; [split; intros ? [] |].
    destruct (onStateChange p); cbn;
      (split; [intros s [H | []]; congruence | intros r [H | []]; discriminate H])
      || (split; intros ? []).
  - injection E as <-. unfold notifyState. cbn.
    destruct (onStateChange p); cbn;
      (split; [intros s [H | []]; congruence | intros r [H | []]; discriminate H])
      || (split; intros ? []).
  - assert (Ht : forall r e, In e (notifyTick p r) -> e = Tick r).
    { intros r e. unfold notifyTick. destruct (onTick p); [| intros []].
      intros [H | []]. congruence. }
    destruct (tick_cases now p)
      as [(_ & T) | [(Hr & _ & T) | [(Hr & _ & q & ev & c & C & T)
                                    | (_ & _ & _ & T)]]];
      rewrite T in E |- *; cbn [fst snd] in E |- *; try discriminate E;
      injection E as <-.
    + split; intros ? [].
    + split.
      * intros s H. apply Ht in H. discriminate H.
      * intros r H. apply Ht in H. injection H as ->. eauto.
    + destruct (completeSession_running now (withRemaining p _) q ev Hr C)
        as (_ & _ & _ & _ & _ & Hev).
      split.
      * intros s H. apply in_app_or in H. destruct H as [H | H];
          [apply Ht in H; discriminate H |].
        rewrite Hev in H. unfold notifyState in H.
        destruct (onStateChange _); [| destruct H].
        destruct H as [H | []]. congruence.
      * intros r H. apply in_app_or in H. destruct H as [H | H].
        -- apply Ht in H. injection H as ->. eauto.
        -- rewrite Hev in H. unfold notifyState in H.
           destruct (onStateChange _); [| destruct H].
           destruct H as [H | []]. discriminate H.
Qed.

Lemma notifications_carry_new_state_witness :
  exists q,
    step (OpTick 2) (fst (fst (Start 1 (New oneTickWork)))) = Some q
    /\ In (StateChange StateShortBreak)
          (stepEvents (OpTick 2) (fst (fst (Start 1 (New oneTickWork)))))
    /\ StateShortBreak = CurrentState q.
Proof.
  eexists. split; [reflexivity |].
  assert (H : In (StateChange StateShortBreak)
                 (stepEvents (OpTick 2)
                             (fst (fst (Start 1 (New oneTickWork)))))).
  { vm_compute. right. left. reflexivity. }
  split; [exact H |].
  exact (proj1 (notifications_carry_new_state
                  (OpTick 2) (fst (fst (Start 1 (New oneTickWork)))) _
                  eq_refl) StateShortBreak H).
Defined.

End ReachableMore.

(* ------------------------------------------------------------------ *)
(** ** The storage *)

Section Storage.

Import models storage.

(** A loop that appends the elements passing a test builds the filtered
    list. *)
Lemma collect_filter (A : Type) (f : A -> bool) (l acc : list A) :
  fold_left (fun result s => if f s then result ++ [s] else result) l acc
  = acc ++ filter f l.
Proof.
  revert acc. induction l as [| x rest IH]; intros acc; simpl.
  - rewrite app_nil_r. reflexivity.
  - rewrite IH. destruct (f x); [| reflexivity].
    rewrite <- app_assoc. reflexivity.
Qed.

Lemma GetLast_snoc (fs : FileStorage) (s : Session) :
  GetLast (fs ++ [s]) = (Some s, None).
Proof. unfold GetLast, GetAll. rewrite rev_unit. reflexivity. Qed.

(** X12.  GetByTask returns, in stored order, exactly the records whose
    task is the one asked for; asking again on its result changes
    nothing. *)
Theorem GetByTask_selects (task : string) (fs : FileStorage) :
  GetByTask task fs = filter (fun s => (Task s =? task)%string) fs
  /\ (forall s, In s (GetByTask task fs) <-> In s fs /\ Task s = task)
  /\ GetByTask task (GetByTask task fs) = GetByTask task fs.
Proof.
  assert (E : forall l,
             GetByTask task l = filter (fun s => (Task s =? task)%string) l).
  { intros l. unfold GetByTask, GetAll. apply (collect_filter _ _ l []). }
  split; [apply E |]. split.
  - intros s. rewrite E, filter_In, String.eqb_eq. reflexivity.
  - rewrite (E (GetByTask task fs)), E.
    induction fs as [| x rest IH]; simpl; [reflexivity |].
    destruct (Task x =? task)%string eqn:T; simpl; [| exact IH].
    rewrite T, IH. reflexivity.
Qed.

(** X13.  GetByDateRange returns, in stored order, exactly the records
    whose start time lies between the two bounds, both included; with the
    bounds in the wrong order it returns nothing. *)
Theorem GetByDateRange_inclusive (start end_ : time.Time) (fs : FileStorage) :
  (forall s,
      In s (GetByDateRange start end_ fs)
      <-> In s fs /\ start <= StartTime s <= end_)
  /\ (end_ < start -> GetByDateRange start end_ fs = []).
Proof.
  unfold GetByDateRange, GetAll.
  rewrite (collect_filter _ _ fs []). cbn [app].
  assert (T : forall s,
             (time.After (StartTime s) start || time.Equal (StartTime s) start)
             && (time.Before (StartTime s) end_
                 || time.Equal (StartTime s) end_) = true
             <-> start <= StartTime s <= end_).
  { intros s. unfold time.After, time.Before, time.Equal.
    rewrite andb_true_iff, !orb_true_iff, !Z.ltb_lt, !Z.eqb_eq. lia. }
  split.
  - intros s. rewrite filter_In, T. reflexivity.
  - intros Hinv. induction fs as [| x rest IH]; simpl; [reflexivity |].
    destruct ((time.After (StartTime x) start
               || time.Equal (StartTime x) start)
              && (time.Before (StartTime x) end_
                  || time.Equal (StartTime x) end_)) eqn:C; [| exact IH].
    apply T in C. lia.
Qed.

End Storage.

(* ------------------------------------------------------------------ *)
(** ** The session log, continued *)

Section SessionLogMore.

Import models tracker.

(** X14.  Start succeeds exactly when the task name is not empty, the clock
    does not read the zero instant and the last stored record, if any, is
    closed.  It then appends the open session it returns (the task, the
    current time as start, no end); when it fails it returns no session and
    leaves the file as it is. *)
Theorem Start_succeeds_iff (task : string) (now : time.Time)
        (fs : storage.FileStorage) :
  let s := {| Task := task; StartTime := now; EndTime := time.zero |} in
  (snd (Start task now fs) = None
   <-> task <> ""%string /\ now <> time.zero /\ lastOpen fs = false)
  /\ (snd (Start task now fs) = None ->
      Start task now fs = (fs ++ [s], Some s, None))
  /\ (snd (Start task now fs) <> None ->
      fst (Start task now fs) = (fs, None)).
Proof.
  intros s.
  destruct (Start_cases task now fs) as [[e E] | (Hl & Hs & E)].
  - rewrite E. simpl. split; [| split; [discriminate | reflexivity]].
    split; [discriminate |]. intros (Ht & Hn & Hl). exfalso.
    unfold Start, lastOpen, storage.GetLast, storage.GetAll in *.
    destruct (String.eqb_spec task ""); [contradiction |].
    assert (Hsave : storage.Save s fs = (fs ++ [s], None)).
    { apply Save_storable. split; assumption. }
    fold s in E.
    destruct (rev fs) as [| l rest].
    + change (negb (ErrNoSessions =? ErrNoSessions)%string) with false in E.
      cbv iota beta in E. rewrite Hsave in E. discriminate E.
    + rewrite Hl in E. rewrite Hsave in E. discriminate E.
  - fold s in Hs, E. rewrite E. simpl.
    split; [| split; [reflexivity | congruence]].
    destruct Hs as [Ht Hn]. simpl in Ht, Hn. split; auto.
Qed.

(** X15.  On a file whose records all have a task and a start time, Finish
    succeeds exactly when the last record is open.  It then appends, and
    returns, that record with the current time as end, and the original
    record stays where it was; when it fails (no record at all, or a last
    record already closed) it returns no session and leaves the file as it
    is. *)
Theorem Finish_succeeds_iff (now : time.Time) (fs : storage.FileStorage) :
  Forall storable fs ->
  (snd (Finish now fs) = None <-> lastOpen fs = true)
  /\ (snd (Finish now fs) = None ->
      exists l rest,
        rev fs = l :: rest
        /\ Finish now fs
           = (fs ++ [ {| Task := Task l; StartTime := StartTime l;
                         EndTime := now |} ],
              Some {| Task := Task l; StartTime := StartTime l;
                      EndTime := now |}, None))
  /\ (snd (Finish now fs) <> None -> fst (Finish now fs) = (fs, None))
  /\ Finish now [] = ([], None, Some "no active session to finish"%string).
Proof.
  intros Hall.
  split; [| split; [| split; [| reflexivity]]].
  - destruct (Finish_cases now fs) as [[e E] | (l & rest & Hr & Hz & Hs & E)].
    + rewrite E. simpl. split; [discriminate |]. intros Hl. exfalso.
      unfold Finish, lastOpen, storage.GetAll in *.
      destruct (rev fs) as [| l rest] eqn:Hr; [discriminate Hl |].
      rewrite Hl in E. cbn [negb] in E.
      assert (Hst : storable l).
      { apply (proj1 (Forall_forall storable fs) Hall).
        apply in_rev. rewrite Hr. left. reflexivity. }
      rewrite Save_storable in E; [discriminate E | exact Hst].
    + rewrite E. simpl. split; [intros _ | reflexivity].
      unfold lastOpen. rewrite Hr. exact Hz.
  - destruct (Finish_cases now fs) as [[e E] | (l & rest & Hr & Hz & Hs & E)];
      rewrite E; simpl; [discriminate |].
    intros _. exists l, rest. split; [exact Hr | reflexivity].
  - destruct (Finish_cases now fs) as [[e E] | (l & rest & Hr & Hz & Hs & E)];
      rewrite E; simpl; [reflexivity | congruence].
Qed.

Lemma Finish_succeeds_iff_witness :
  Forall storable [ {| Task := "a"; StartTime := 5; EndTime := 0 |} ]
  /\ snd (Finish 9 [ {| Task := "a"; StartTime := 5; EndTime := 0 |} ]) = None.
Proof.
  assert (H : Forall storable [ {| Task := "a"; StartTime := 5; EndTime := 0 |} ]).
  { constructor; [| constructor]. split; simpl; [discriminate |].
    unfold time.zero. lia. }
  split; [exact H |].
  apply (proj1 (Finish_succeeds_iff 9 _ H)). reflexivity.
Defined.

(** X16.  A command never removes or rewrites a stored record: the file
    after a command is the file before it followed by the session the
    command returns, if it returns one; and it returns one exactly when it
    succeeds. *)
Theorem log_is_append_only (c : Cmd) (fs : storage.FileStorage) :
  after c fs
  = fs ++ match snd (fst (exec c fs)) with
          | Some s => [s]
          | None => []
          end
  /\ (succeeds c fs = true <-> snd (fst (exec c fs)) <> None).
Proof.
  unfold after, succeeds. destruct c as [task now | now]; simpl.
  - destruct (Start_cases task now fs) as [[e E] | (_ & _ & E)]; rewrite E;
      simpl; [rewrite app_nil_r |]; (split; [reflexivity |]);
      split; congruence.
  - destruct (Finish_cases now fs) as [[e E] | (l & rest & _ & _ & _ & E)];
      rewrite E; simpl; [rewrite app_nil_r |]; (split; [reflexivity |]);
      split; congruence.
Qed.

(** X17.  Starting a session on a file whose last record is closed and
    finishing it writes two records, the open one and its closed copy;
    Finish returns the session with the task and start time given to Start
    and the end time of the Finish, and a second Finish is refused. *)
Theorem Start_then_Finish (task : string) (now1 now2 now3 : time.Time)
        (fs : storage.FileStorage) :
  task <> ""%string -> now1 <> time.zero -> now2 <> time.zero ->
  lastOpen fs = false ->
  let opened := {| Task := task; StartTime := now1; EndTime := time.zero |} in
  let closed := {| Task := task; StartTime := now1; EndTime := now2 |} in
  Start task now1 fs = (fs ++ [opened], Some opened, None)
  /\ Finish now2 (fs ++ [opened])
     = (fs ++ [opened] ++ [closed], Some closed, None)
  /\ execAll [CmdStart task now1; CmdFinish now2; CmdFinish now3] fs
     = fs ++ [opened; closed]
  /\ snd (Finish now3 (fs ++ [opened; closed])) <> None.
Proof.
  intros Ht Hn1 Hn2 Hl opened closed.
  assert (E1 : Start task now1 fs = (fs ++ [opened], Some opened, None)).
  { apply (proj1 (proj2 (Start_succeeds_iff task now1 fs))).
    apply (proj1 (Start_succeeds_iff task now1 fs)). auto. }
  assert (E2 : Finish now2 (fs ++ [opened])
               = ((fs ++ [opened]) ++ [closed], Some closed, None)).
  { unfold Finish, storage.GetAll. rewrite rev_unit. cbn [EndTime opened].
    change (time.IsZero time.zero) with true. cbn [negb Task StartTime].
    fold closed. rewrite Save_storable; [reflexivity |].
    split; assumption. }
  assert (E3 : Finish now3 ((fs ++ [opened]) ++ [closed])
               = ((fs ++ [opened]) ++ [closed], None,
                  Some ("error ending the session! Task '" ++ task
                          ++ "' is already finished")%string)).
  { unfold Finish, storage.GetAll. rewrite rev_unit. cbn [EndTime closed].
    apply IsZero_false in Hn2. rewrite Hn2. reflexivity. }
  rewrite <- !app_assoc in E2, E3. cbn [app] in E2, E3.
  split; [exact E1 |]. split; [exact E2 |]. split.
  - unfold execAll, after. simpl. rewrite E1. simpl.
    rewrite E2. simpl. rewrite E3. reflexivity.
  - rewrite E3. simpl. discriminate.
Qed.

Lemma Start_then_Finish_witness :
  execAll [CmdStart "a" 1; CmdFinish 2; CmdFinish 3] []
  = [] ++ [ {| Task := "a"; StartTime := 1; EndTime := time.zero |};
            {| Task := "a"; StartTime := 1; EndTime := 2 |} ].
Proof.
  apply (Start_then_Finish "a" 1 2 3 []).
  - discriminate.
  - unfold time.zero. lia.
  - unfold time.zero. lia.
  - reflexivity.
Defined.

End SessionLogMore.

(* ------------------------------------------------------------------ *)
(** ** The session log: shape of the file *)

Section LogShape.

Import models tracker.

(** Induction two records at a time. *)
Lemma pairs_ind (P : list Session -> Prop) :
  P [] ->
  (forall o, P [o]) ->
  (forall o c rest, P rest -> P (o :: c :: rest)) ->
  forall fs, P fs.
Proof.
  intros H0 H1 H2.
  assert (H : forall fs, P fs /\ forall o, P (o :: fs)).
  { induction fs as [| x rest [IH1 IH2]]; split; auto. }
  intros fs. apply H.
Qed.

Lemma closes_closed (c o : Session) :
  closes c o -> time.IsZero (EndTime c) = false.
Proof. intros (_ & _ & H). apply IsZero_false. exact H. Qed.

Lemma lastOpen_cons2 (o c : Session) (rest : list Session) :
  time.IsZero (EndTime c) = false ->
  lastOpen (o :: c :: rest) = lastOpen rest.
Proof.
  intros Hc. unfold lastOpen. cbn [rev].
  destruct (rev rest) as [| l t] eqn:R; simpl; [exact Hc | reflexivity].
Qed.

Lemma alternating_snoc (s : Session) (fs : list Session) :
  alternating fs ->
  (lastOpen fs = false -> time.IsZero (EndTime s) = true ->
   alternating (fs ++ [s]))
  /\ (forall l rest,
        rev fs = l :: rest -> time.IsZero (EndTime l) = true ->
        closes s l -> alternating (fs ++ [s])).
Proof.
  induction fs as [| o | o c rest IH] using pairs_ind.
  - intros _. split.
    + intros _ Hs. simpl. auto.
    + intros l rest Hr. discriminate Hr.
  - intros [Ho _]. split.
    + intros Hl. unfold lastOpen in Hl. simpl in Hl. congruence.
    + intros l rest Hr Hz Hc. simpl in Hr. injection Hr as <- _.
      simpl. auto.
  - intros (Ho & Hc & Ha). destruct (IH Ha) as [IH1 IH2].
    pose proof (closes_closed c o Hc) as Hcz.
    split.
    + intros Hl Hs. rewrite (lastOpen_cons2 o c rest Hcz) in Hl.
      cbn [app alternating].
      split; [exact Ho |]. split; [exact Hc |]. exact (IH1 Hl Hs).
    + intros l t Hr Hz Hcl.
      cbn [app alternating].
      split; [exact Ho |]. split; [exact Hc |].
      cbn [rev] in Hr.
      destruct (rev rest) as [| l' t'] eqn:R.
      * simpl in Hr. injection Hr as <- _. congruence.
      * simpl in Hr. injection Hr as <- _.
        apply (IH2 l' t' eq_refl Hz Hcl).
Qed.

Lemma exec_alternating (c : Cmd) (fs : storage.FileStorage) :
  clockSet c -> alternating fs -> alternating (after c fs).
Proof.
  intros Hc Ha. unfold after. destruct c as [task now | now]; simpl.
  - destruct (Start_cases task now fs) as [[e E] | (Hl & _ & E)];
      rewrite E; simpl; [exact Ha |].
    apply (proj1 (alternating_snoc _ fs Ha) Hl). reflexivity.
  - destruct (Finish_cases now fs) as [[e E] | (l & rest & Hr & Hz & _ & E)];
      rewrite E; simpl; [exact Ha |].
    apply (proj2 (alternating_snoc _ fs Ha) l rest Hr Hz).
    unfold closes. simpl. auto.
Qed.

Lemma alternating_counts (fs : list Session) :
  alternating fs ->
  openCount fs = Nat.div2 (S (List.length fs))
  /\ lastOpen fs = Nat.odd (List.length fs).
Proof.
  induction fs as [| o | o c rest IH] using pairs_ind.
  - intros _. split; reflexivity.
  - intros [Ho _]. unfold openCount, lastOpen. simpl. rewrite Ho.
    split; reflexivity.
  - intros (Ho & Hc & Ha). destruct (IH Ha) as [IH1 IH2].
    pose proof (closes_closed c o Hc) as Hcz. split.
    + unfold openCount in *. cbn [filter]. rewrite Ho, Hcz.
      cbn [List.length]. rewrite IH1. reflexivity.
    + rewrite (lastOpen_cons2 o c rest Hcz), IH2.
      cbn [List.length]. rewrite !Nat.odd_succ, Nat.even_succ. reflexivity.
Qed.

(** X18.  A file produced from an empty one by Start and Finish commands
    is a sequence of pairs, an open record followed by its closed copy,
    possibly ended by one open record: every session that was finished is
    stored twice.  Half of the records (rounded up) have a zero end
    timestamp, and the last record is open exactly when the number of
    records is odd. *)
Theorem log_alternates (cs : list Cmd) :
  Forall clockSet cs ->
  let fs := execAll cs [] in
  alternating fs
  /\ openCount fs = Nat.div2 (S (List.length fs))
  /\ lastOpen fs = Nat.odd (List.length fs).
Proof.
  intros Hc fs.
  assert (Ha : alternating fs).
  { subst fs. unfold execAll.
    assert (G : forall l acc, Forall clockSet l -> alternating acc ->
                              alternating (fold_left (fun a c => after c a) l acc)).
    { induction l as [| c rest IH]; intros acc Hl Hacc; simpl; [exact Hacc |].
      inversion Hl as [| ? ? H1 H2]; subst.
      apply IH; [exact H2 | apply exec_alternating; assumption]. }
    apply G; [exact Hc | exact I]. }
  split; [exact Ha | apply alternating_counts; exact Ha].
Qed.

Lemma log_alternates_witness :
  Forall clockSet [CmdStart "a" 1; CmdFinish 2; CmdStart "b" 3]
  /\ openCount (execAll [CmdStart "a" 1; CmdFinish 2; CmdStart "b" 3] [])
     = Nat.div2
         (S (List.length
               (execAll [CmdStart "a" 1; CmdFinish 2; CmdStart "b" 3] []))).
Proof.
  assert (H : Forall clockSet [CmdStart "a" 1; CmdFinish 2; CmdStart "b" 3]).
  { repeat constructor; simpl; unfold time.zero; lia. }
  split; [exact H |].
  exact (proj1 (proj2 (log_alternates _ H))).
Defined.

End LogShape.



(* ------------------------------------------------------------------ *)
(** ** The analytics: totals *)

Section Totals.

Import models analytics.

Lemma wrap_range (z : Z) : goint.in_range (goint.wrap z).
Proof.
  unfold goint.in_range, goint.wrap, goint.min_int, goint.max_int.
  pose proof (Z.mod_pos_bound (z + 2 ^ 63) (2 ^ 64) ltac:(lia)). lia.
Qed.

Lemma wrap_add_l (a b : Z) : goint.wrap (goint.wrap a + b) = goint.wrap (a + b).
Proof.
  unfold goint.wrap. f_equal.
  replace ((a + 2 ^ 63) mod 2 ^ 64 - 2 ^ 63 + b + 2 ^ 63)
    with ((a + 2 ^ 63) mod 2 ^ 64 + b) by lia.
  rewrite Zplus_mod_idemp_l. f_equal. lia.
Qed.

Lemma wrap_add_r (a b : Z) : goint.wrap (a + goint.wrap b) = goint.wrap (a + b).
Proof. rewrite Z.add_comm, wrap_add_l. f_equal. lia. Qed.

Lemma addUp_range (keep : Session -> bool) (ssns : list Session)
      (acc : time.Duration) :
  goint.in_range acc -> goint.in_range (addUp keep ssns acc).
Proof.
  revert acc. induction ssns as [| x rest IH]; intros acc H; simpl;
    [exact H |].
  apply IH. destruct (keep x); [apply wrap_range | exact H].
Qed.

Lemma addUp_from (keep : Session -> bool) (ssns : list Session)
      (acc : time.Duration) :
  goint.in_range acc ->
  addUp keep ssns acc = goint.wrap (acc + addUp keep ssns 0).
Proof.
  revert acc. induction ssns as [| x rest IH]; intros acc H.
  - simpl. rewrite Z.add_0_r, wrap_in_range; [reflexivity | exact H].
  - unfold addUp in *. cbn [fold_left]. destruct (keep x); [| apply IH; exact H].
    set (d := time.Sub (EndTime x) (StartTime x)).
    rewrite (IH (goint.wrap (acc + d))) by apply wrap_range.
    rewrite (IH (goint.wrap (0 + d))) by apply wrap_range.
    set (F := fold_left _ rest 0).
    rewrite wrap_add_l, wrap_add_r.
    replace (acc + (goint.wrap (0 + d) + F))
      with (goint.wrap (0 + d) + (acc + F)) by lia.
    rewrite wrap_add_l. f_equal. lia.
Qed.

Lemma addUp_filter (keep also : Session -> bool) (ssns : list Session)
      (acc : time.Duration) :
  addUp (fun s => also s && keep s) ssns acc
  = addUp keep (filter also ssns) acc.
Proof.
  revert acc. induction ssns as [| x rest IH]; intros acc; [reflexivity |].
  unfold addUp in *. cbn [fold_left filter].
  destruct (also x); cbn [andb fold_left]; apply IH.
Qed.

Lemma addUp_ext (keep keep' : Session -> bool) (ssns : list Session)
      (acc : time.Duration) :
  (forall s, In s ssns -> keep s = keep' s) ->
  addUp keep ssns acc = addUp keep' ssns acc.
Proof.
  revert acc. induction ssns as [| x rest IH]; intros acc H; [reflexivity |].
  unfold addUp in *. cbn [fold_left].
  rewrite (H x (or_introl eq_refl)). apply IH.
  intros s Hs. apply H. right. exact Hs.
Qed.

Lemma Total_addUp (ssns : list Session) (task : string) (now : time.Time) :
  CalculateTotalDuration ssns task now = addUp (selected task) ssns 0.
Proof. reflexivity. Qed.

(** X20.  The total of two lists put end to end is the 64-bit sum of their
    totals, and every total is a value of the 64-bit range. *)
Theorem CalculateTotalDuration_app (a b : list Session) (task : string)
        (now : time.Time) :
  CalculateTotalDuration (a ++ b) task now
  = goint.wrap (CalculateTotalDuration a task now
                + CalculateTotalDuration b task now)
  /\ goint.in_range (CalculateTotalDuration a task now).
Proof.
  rewrite !Total_addUp. split.
  - unfold addUp at 1. rewrite fold_left_app.
    apply (addUp_from (selected task) b).
    apply addUp_range. unfold goint.in_range, goint.min_int, goint.max_int.
    lia.
  - apply addUp_range. unfold goint.in_range, goint.min_int, goint.max_int.
    lia.
Qed.

(** X21.  With a task name that is not empty, the total for that task is
    the total, without filter, of the sessions GetByTask returns for it;
    with the empty task name every session is counted. *)
Theorem CalculateTotalDuration_by_task (ssns : list Session) (task : string)
        (now : time.Time) :
  task <> ""%string ->
  CalculateTotalDuration ssns task now
  = CalculateTotalDuration (storage.GetByTask task ssns) "" now.
Proof.
  intros Ht. rewrite !Total_addUp.
  assert (G : storage.GetByTask task ssns
              = filter (fun s => (Task s =? task)%string) ssns).
  { unfold storage.GetByTask, storage.GetAll.
    apply (collect_filter _ _ ssns []). }
  rewrite G, <- addUp_filter. apply addUp_ext.
  intros s _. unfold selected.
  destruct (String.eqb_spec task ""); [contradiction |].
  cbn [orb String.eqb]. rewrite andb_true_r. reflexivity.
Qed.

Lemma CalculateTotalDuration_by_task_witness :
  CalculateTotalDuration [hourOnDay10] "a" 0
  = CalculateTotalDuration (storage.GetByTask "a" [hourOnDay10]) "" 0.
Proof.
  apply (CalculateTotalDuration_by_task [hourOnDay10] "a" 0). discriminate.
Defined.

End Totals.

(* ------------------------------------------------------------------ *)
(** ** The analytics: periods *)

Section Periods.

Import models analytics.

(** X23.  A session that is still open is not skipped by the totals: its
    zero end time minus its start time saturates, so for every start time
    later than 2^63 ns after the zero instant (the year 293) it adds the
    most negative duration.  The total of an open record followed by its
    closed copy, as Start and Finish leave them in the file, is therefore
    not the length of the session but that length minus 2^63 ns. *)
Theorem open_session_counts_as_minimum
        (ssns : list Session) (s : Session) (task : string) (now : time.Time) :
  selected task s = true ->
  EndTime s = time.zero ->
  2 ^ 63 <= StartTime s ->
  CalculateTotalDuration [s] task now = goint.min_int
  /\ CalculateTotalDuration (ssns ++ [s]) task now
     = goint.wrap (CalculateTotalDuration ssns task now + goint.min_int)
  /\ (forall c,
        tracker.closes c s ->
        0 <= EndTime c - StartTime s <= goint.max_int ->
        CalculateTotalDuration [s; c] task now
        = goint.min_int + (EndTime c - StartTime s)
        /\ CalculateTotalDuration [s; c] task now < 0).
Proof.
  intros Hsel Hend Hstart.
  assert (Hsub : time.Sub (EndTime s) (StartTime s) = goint.min_int).
  { rewrite Hend. unfold time.Sub, time.zero, goint.min_int, goint.max_int.
    destruct (Z.ltb_spec (0 - StartTime s) (- 2 ^ 63)); [reflexivity |].
    destruct (Z.ltb_spec (2 ^ 63 - 1) (0 - StartTime s)); lia. }
  assert (Hmin : goint.wrap (0 + goint.min_int) = goint.min_int).
  { apply wrap_in_range.
    unfold goint.in_range, goint.min_int, goint.max_int. lia. }
  assert (H1 : CalculateTotalDuration [s] task now = goint.min_int).
  { rewrite Total_addUp. unfold addUp. cbn [fold_left].
    rewrite Hsel, Hsub. exact Hmin. }
  split; [exact H1 |]. split.
  - rewrite !Total_addUp. unfold addUp at 1. rewrite fold_left_app.
    cbn [fold_left]. rewrite Hsel, Hsub. reflexivity.
  - intros c (Ht & Hs & He) Hlen.
    assert (Hc : selected task c = true).
    { unfold selected in *. rewrite Ht. exact Hsel. }
    assert (E : CalculateTotalDuration [s; c] task now
                = goint.min_int + (EndTime c - StartTime s)).
    { rewrite Total_addUp. unfold addUp. cbn [fold_left].
      rewrite Hsel, Hc, Hsub, Hmin, Hs.
      assert (Hd : time.Sub (EndTime c) (StartTime s)
                   = EndTime c - StartTime s).
      { unfold time.Sub.
        destruct (Z.ltb_spec (EndTime c - StartTime s) goint.min_int) as [L |];
          [unfold goint.min_int in L; lia |].
        destruct (Z.ltb_spec goint.max_int (EndTime c - StartTime s));
          [lia | reflexivity]. }
      rewrite Hd. apply wrap_in_range.
      unfold goint.in_range, goint.min_int, goint.max_int in *. lia. }
    split; [exact E |]. rewrite E.
    unfold goint.min_int, goint.max_int in *. lia.
Qed.

Lemma open_session_counts_as_minimum_witness :
  CalculateTotalDuration
    [ {| Task := "a"; StartTime := 2 ^ 65; EndTime := 0 |} ] "" 0
  = goint.min_int.
Proof.
  apply (open_session_counts_as_minimum
           [] {| Task := "a"; StartTime := 2 ^ 65; EndTime := 0 |} "" 0).
  - reflexivity.
  - reflexivity.
  - vm_compute. discriminate.
Defined.

End Periods.
